(** * Review Analytics API: a shallow embedding of [main.py]

    The service keeps an in-memory list of analysed reviews
    ([reviews_db]), tags each submitted review ([get_ai_tags]), and
    reports the three most frequent tags together with the mean
    processing time ([get_summary], [top_k_tags]).

    Conventions of the embedding.
    - A Python [str] is a Rocq [string]; each character is read as a code
      point in the range U+0000..U+00FF, on which [str.lower] and
      [str.strip] act character by character.
    - A Python [int] is a [Z]. A Python [float] is a binary64 number,
      represented by its exact value, a rational [Q]; every operation
      rounds its exact result to the nearest double. Infinities, NaN and
      the sign of zero are not represented.
    - A Python [dict] received from or returned to the HTTP layer is a
      [gmap string value]; the dict [freq] of [top_k_tags], whose
      iteration order matters, is an association list in insertion order.
    - The process state is threaded explicitly ([world]); the values the
      code obtains from outside (environment variable, remote completion,
      clock readings) are parameters. *)

From Stdlib Require Import Ascii String QArith Qpower Qround Qabs Lqa Lia.
From stdpp Require Import gmap strings list fin_maps sorting.
From Corelib Require PrimFloat SpecFloat FloatOps.

Local Open Scope string_scope.
Local Open Scope list_scope.

(** ** Python string primitives *)

Module PyStr.

Definition dquote : ascii := Ascii.ascii_of_nat 34.
Definition squote : ascii := Ascii.ascii_of_nat 39.
Definition newline : ascii := Ascii.ascii_of_nat 10.

(** [str.isspace] on one character, as used by [str.strip()] without
    argument. *)
Definition is_space (c : ascii) : bool :=
  let n := Ascii.nat_of_ascii c in
  ((9 <=? n)%nat && (n <=? 13)%nat)
  || ((28 <=? n)%nat && (n <=? 32)%nat)
  || (n =? 133)%nat || (n =? 160)%nat.

(** [str.lower] on one character. *)
Definition lower_char (c : ascii) : ascii :=
  let n := Ascii.nat_of_ascii c in
  if ((65 <=? n)%nat && (n <=? 90)%nat)
     || ((192 <=? n)%nat && (n <=? 222)%nat && negb (n =? 215)%nat)
  then Ascii.ascii_of_nat (n + 32)
  else c.

Fixpoint lower (s : string) : string :=
  match s with
  | EmptyString => EmptyString
  | String c r => String (lower_char c) (lower r)
  end.

Fixpoint lstrip (p : ascii -> bool) (s : string) : string :=
  match s with
  | EmptyString => EmptyString
  | String c r => if p c then lstrip p r else s
  end.

Fixpoint rstrip (p : ascii -> bool) (s : string) : string :=
  match s with
  | EmptyString => EmptyString
  | String c r =>
      match rstrip p r with
      | EmptyString => if p c then EmptyString else String c EmptyString
      | r' => String c r'
      end
  end.

(** [s.strip()] *)
Definition strip (s : string) : string := rstrip is_space (lstrip is_space s).

(** [s.strip(c)] for a one-character argument. *)
Definition strip_char (c : ascii) (s : string) : string :=
  rstrip (Ascii.eqb c) (lstrip (Ascii.eqb c) s).

(** [s.replace(c, '')] for a one-character [c]. *)
Fixpoint remove_char (c : ascii) (s : string) : string :=
  match s with
  | EmptyString => EmptyString
  | String x r =>
      if Ascii.eqb x c then remove_char c r else String x (remove_char c r)
  end.

(** [s.split(c)] for a one-character separator: never the empty list. *)
Fixpoint split (c : ascii) (s : string) : list string :=
  match s with
  | EmptyString => [EmptyString]
  | String x r =>
      if Ascii.eqb x c then EmptyString :: split c r
      else match split c r with
           | h :: t => String x h :: t
           | [] => [String x EmptyString]
           end
  end.

Fixpoint startswith (sub s : string) : bool :=
  match sub, s with
  | EmptyString, _ => true
  | String a sub', String b s' => Ascii.eqb a b && startswith sub' s'
  | String _ _, EmptyString => false
  end.

(** [sub in s] *)
Fixpoint contains (sub s : string) : bool :=
  startswith sub s
  || match s with
     | EmptyString => false
     | String _ r => contains sub r
     end.

(** Truth value of a string: [bool(s)]. *)
Definition truthy (s : string) : bool :=
  match s with EmptyString => false | String _ _ => true end.

(** [l[:k]] for a Python integer [k], negative values included. *)
Definition slice_to {A} (k : Z) (l : list A) : list A :=
  if (0 <=? k)%Z then take (Z.to_nat k) l
  else take (length l - Z.to_nat (- k)) l.

End PyStr.

Import PyStr.

(** ** Tag Classifier: [get_ai_tags] *)

(** Result of lines 28-34: the remote completion either delivers the text
    of the first choice or some exception is raised on the way. *)
Inductive completion :=
| Completed (content : string)
| Failed.

(** What [get_ai_tags] reads from outside the program. *)
Record environ := {
  OPENAI_API_KEY : option string;
  ChatCompletion_create : string -> completion
}.

Definition prompt (review_text : string) : string :=
  String newline
    "    You are an AI assistant. Read the following customer review and generate up to 3 relevant tags."
  +:+ String newline (String newline "    Review: ")
  +:+ String dquote review_text
  +:+ String dquote (String newline (String newline
       "    Respond strictly with a JSON array of concise lowercase tags."))
  +:+ String newline "    ".

(** Line 38: the list comprehension over the comma-separated pieces. *)
Definition parse_tags (ai_output : string) : list string :=
  map (fun t => strip_char squote (strip_char dquote (strip t)))
      (filter (fun t => truthy (strip t) = true)
              (split ","%char
                 (remove_char "]"%char (remove_char "["%char ai_output)))).

(** Lines 44-53: the keyword rules. *)
Definition mock_tags (review_text : string) : list string :=
  let lower_text := lower review_text in
  if contains "late" lower_text || contains "delay" lower_text then
    ["late_delivery"; "shipping_delay"]
  else if contains "broken" lower_text || contains "not working" lower_text then
    ["defective_item"; "product_failure"]
  else if contains "refund" lower_text || contains "return" lower_text then
    ["refund_request"; "customer_service"]
  else
    ["general_feedback"].

(** ** Frequency Aggregator: [top_k_tags] *)

(** The dict [freq], in insertion order. *)
Definition freq_dict := list (string * Z).

(** [d.get(k, dflt)] *)
Fixpoint dict_get (k : string) (dflt : Z) (d : freq_dict) : Z :=
  match d with
  | [] => dflt
  | (k', v) :: r => if decide (k' = k) then v else dict_get k dflt r
  end.

(** [d[k] = v]: an existing key keeps its position, a new key goes last. *)
Fixpoint dict_set (k : string) (v : Z) (d : freq_dict) : freq_dict :=
  match d with
  | [] => [(k, v)]
  | (k', v') :: r =>
      if decide (k' = k) then (k', v) :: r else (k', v') :: dict_set k v r
  end.

(** Lines 57-59: the loop over [tag_list]. *)
Definition count_tags (tag_list : list string) : freq_dict :=
  fold_left (fun freq tag => dict_set tag (dict_get tag 0 freq + 1)%Z freq)
            tag_list [].

(** [sorted(l, key=key, reverse=True)]: Python's sort is stable, also
    with [reverse=True]; a stable sort is determined by its input, so the
    insertion sort below returns the list Python returns. *)
Section SortedReverse.
Context {A : Type} (key : A -> Z).

Fixpoint insert_desc (x : A) (l : list A) : list A :=
  match l with
  | [] => [x]
  | y :: r => if (key x <? key y)%Z then y :: insert_desc x r else x :: l
  end.

Definition sorted_reverse (l : list A) : list A := foldr insert_desc [] l.
End SortedReverse.

Definition top_k_tags (tag_list : list string) (k : Z) : list (string * Z) :=
  let freq := count_tags tag_list in
  slice_to k (sorted_reverse snd freq).

(** ** Numbers *)

(** A double is represented by the rational it denotes. An operation
    computes the exact result and rounds it to the nearest double, ties to
    the even mantissa, as the processor does. Results beyond the largest
    double (about 1.8e308), which the processor turns into an infinity, are
    outside the model, and so is the sign of a zero. *)

Definition pow2 (e : Z) : Q := Qpower 2 e.

(** Floor of the binary logarithm of a positive rational. *)
Definition ilog2 (q : Q) : Z :=
  let e := (Z.log2 (Qnum q) - Z.log2 (Zpos (Qden q)))%Z in
  if Qle_bool (pow2 e) q then e else (e - 1)%Z.

(** Exponent of the last mantissa bit of the double nearest to [q]: 52
    below the exponent of [q], and not below that of the subnormals. *)
Definition ulp_exponent (q : Q) : Z :=
  Z.max (ilog2 (Qabs q) - 52) (-1074).

(** Nearest integer, ties to the even one. *)
Definition round_half_even (y : Q) : Z :=
  let f := Qfloor y in
  match (y - inject_Z f ?= 1 # 2)%Q with
  | Lt => f
  | Gt => (f + 1)%Z
  | Eq => if Z.even f then f else (f + 1)%Z
  end.

(** The double nearest to [q]. *)
Definition to_double (q : Q) : Q :=
  if Qeq_bool q 0 then 0%Q
  else
    let u := ulp_exponent q in
    Qred (inject_Z (round_half_even (q / pow2 u)) * pow2 u).

(** [x + y], [x - y] and [x / y] on floats. *)
Definition fadd (x y : Q) : Q := to_double (x + y).
Definition fsub (x y : Q) : Q := to_double (x - y).
Definition fdiv (x y : Q) : Q := to_double (x / y).

(** [float(n)] for an [int]. *)
Definition float_of_int (n : Z) : Q := to_double (inject_Z n).

(** [round(x, ndigits)] on a float, for [ndigits >= 0]: the exact value of
    [x] is rounded to [ndigits] decimals, ties to the even digit, and the
    decimal number obtained is converted to the nearest double. *)
Definition py_round (x : Q) (ndigits : nat) : Q :=
  let scale := (10 ^ Z.of_nat ndigits)%Z in
  to_double (inject_Z (round_half_even (x * inject_Z scale)) / inject_Z scale).

(** [sum(xs)] over floats: starts from 0 and adds from the left, one
    rounded addition per item. (CPython 3.12 and later carry a
    compensation term along, which changes nothing for up to two
    items.) *)
Definition py_sum (xs : list Q) : Q := fold_left fadd xs 0%Q.

(** The value of a finite hardware double, to set the operations above
    next to the arithmetic of the processor. *)
Definition Q_of_float (f : PrimFloat.float) : Q :=
  match FloatOps.Prim2SF f with
  | SpecFloat.S754_finite sign mantissa exponent =>
      Qred ((if sign then -1 else 1) * inject_Z (Zpos mantissa) * pow2 exponent)
  | _ => 0%Q
  end.

(** ** Values, process state and effects *)

(** Python values that cross the HTTP boundary. *)
#[warnings="-register-all"]
Inductive value :=
| VNone
| VBool (b : bool)
| VInt (n : Z)
| VFloat (x : Q)
| VStr (s : string)
| VList (l : list value)
| VTuple (l : list value)
| VDict (m : gmap string value).

(** One entry of [reviews_db]. *)
Record review := {
  text : string;
  tags : list string;
  processing_time : Q
}.

(** Calls and output that the handlers perform, in program order. *)
Inductive event :=
| Call_time (reading : Q)
| Call_get_ai_tags (review_text : string)
| Call_ChatCompletion (prompt_sent : string)
| Print_raw_output (ai_output : string)
| Print_openai_error
| Print_info (elapsed : Q) (tags_found : list string).

Record world := {
  reviews_db : list review;
  trace : list event
}.

Definition initial_world : world := {| reviews_db := []; trace := [] |}.

Inductive exn := AttributeError | ZeroDivisionError | JSONDecodeError.

Inductive outcome (A : Type) :=
| Return (a : A)
| Raise (e : exn).
Arguments Return {A} a.
Arguments Raise {A} e.

(** A computation reads and updates the process state and either returns
    or raises; state changes made before a raise persist. *)
Definition M (A : Type) : Type := world -> outcome A * world.

Definition ret {A} (a : A) : M A := fun w => (Return a, w).

Definition raise {A} (e : exn) : M A := fun w => (Raise e, w).

Definition bind {A B} (c : M A) (k : A -> M B) : M B :=
  fun w =>
    match c w with
    | (Return a, w') => k a w'
    | (Raise e, w') => (Raise e, w')
    end.

Notation "x <- c ;; k" := (bind c (fun x => k))
  (at level 20, c at level 99, k at level 200, only parsing).
Notation "c ;; k" := (bind c (fun _ => k))
  (at level 100, k at level 200, only parsing, right associativity).

Definition emit (ev : event) : M unit :=
  fun w => (Return tt, {| reviews_db := reviews_db w; trace := trace w ++ [ev] |}).

Definition read_db : M (list review) := fun w => (Return (reviews_db w), w).

(** [reviews_db.append(r)] *)
Definition append_db (r : review) : M unit :=
  fun w => (Return tt, {| reviews_db := reviews_db w ++ [r]; trace := trace w |}).

(** [time.time()]: the reading, a double, is supplied by the caller of the
    model. *)
Definition time_time (reading : Q) : M Q :=
  emit (Call_time reading) ;; ret reading.

(** [x / n] with a float [x] and an [int] divisor [n]. *)
Definition py_div (x : Q) (n : Z) : M Q :=
  if (n =? 0)%Z then raise ZeroDivisionError
  else ret (fdiv x (float_of_int n)).

(** Lines 12-53. *)
Definition get_ai_tags (env : environ) (review_text : string) : M (list string) :=
  emit (Call_get_ai_tags review_text) ;;
  let fallback := ret (mock_tags review_text) in
  match OPENAI_API_KEY env with
  | Some api_key =>
      if truthy api_key then
        emit (Call_ChatCompletion (prompt review_text)) ;;
        match ChatCompletion_create env (prompt review_text) with
        | Completed content =>
            let ai_output := strip content in
            emit (Print_raw_output ai_output) ;;
            let tags := parse_tags ai_output in
            ret (slice_to 3 tags)
        | Failed =>
            emit Print_openai_error ;;
            fallback
        end
      else fallback
  | None => fallback
  end.

(** The body of a POST request, as line 65 finds it: the text of a JSON
    document, given by the value that [json.loads] makes of it, or a text
    that is no JSON document. A payload written where a request is
    expected stands for the request whose body is the JSON text of that
    payload. *)
Inductive request_body :=
| Json_body (payload : value)
| Not_json.
Coercion Json_body : value >-> request_body.

(** [await request.json()], line 65. *)
Definition request_json (request : request_body) : M value :=
  match request with
  | Json_body payload => ret payload
  | Not_json => raise JSONDecodeError
  end.

(** Lines 63-78. [t0] and [t1] are the two readings of [time.time()]. *)
Definition analyze_review (env : environ) (t0 t1 : Q) (request : request_body)
  : M (gmap string value) :=
  payload <- request_json request ;;
  match payload with
  | VDict m =>
      match default (VStr "") (m !! "review_text") with
      | VStr s =>
          let review_text := strip s in
          if negb (truthy review_text) then
            ret {[ "error" := VStr "Missing review_text" ]}
          else
            start_time <- time_time t0 ;;
            tags <- get_ai_tags env review_text ;;
            now <- time_time t1 ;;
            let elapsed := py_round (fsub now start_time) 3 in
            append_db {| text := review_text; tags := tags;
                         processing_time := elapsed |} ;;
            emit (Print_info elapsed tags) ;;
            ret (<[ "review_text" := VStr review_text ]>
                 (<[ "tags" := VList (map VStr tags) ]>
                  {[ "processing_time" := VFloat elapsed ]}))
      | _ => raise AttributeError
      end
  | _ => raise AttributeError
  end.

Definition tag_count_value (p : string * Z) : value :=
  VTuple [VStr p.1; VInt p.2].

(** Lines 81-95. *)
Definition get_summary : M (gmap string value) :=
  db <- read_db ;;
  match db with
  | [] => ret {[ "message" := VStr "No reviews analyzed yet." ]}
  | _ :: _ =>
      let all_tags := flat_map tags db in
      let total_reviews := Z.of_nat (length db) in
      mean <- py_div (py_sum (map processing_time db)) total_reviews ;;
      let avg_processing_time := py_round mean 2 in
      let top_tags := top_k_tags all_tags 3 in
      ret (<[ "total_reviews" := VInt total_reviews ]>
           (<[ "top_tags" := VList (map tag_count_value top_tags) ]>
            {[ "avg_processing_time" := VFloat avg_processing_time ]}))
  end.

(** ** Vocabulary of the statements *)

(** [kw] occurs somewhere inside [s]. *)
Definition occurs_in (kw s : string) : Prop :=
  exists pre post : string, s = pre +:+ kw +:+ post.

(** The credential counts as configured when the variable is set to a
    non-empty string (line 26). *)
Definition credential_configured (env : environ) : bool :=
  match OPENAI_API_KEY env with
  | Some api_key => truthy api_key
  | None => false
  end.

(** Number of occurrences of [t] in [l]. *)
Definition occurrences (t : string) (l : list string) : nat :=
  length (filter (fun x => x = t) l).

(** Position of the first occurrence of [t] in [l] ([length l] if none). *)
Fixpoint first_index (t : string) (l : list string) : nat :=
  match l with
  | [] => 0
  | x :: r => if decide (x = t) then 0 else S (first_index t r)
  end.

(** Descending order of keys. *)
Definition by_key_desc {A} (key : A -> Z) (x y : A) : Prop :=
  (key y <= key x)%Z.


(** The mean as line 89 computes it, [sum(xs) / len(xs)] on floats. *)
Definition float_mean (xs : list Q) : Q :=
  fdiv (py_sum xs) (float_of_int (Z.of_nat (length xs))).

(** [c in s] for one character. *)
Fixpoint has_char (c : ascii) (s : string) : bool :=
  match s with
  | EmptyString => false
  | String x r => Ascii.eqb x c || has_char c r
  end.

Fixpoint all_chars (p : ascii -> bool) (s : string) : bool :=
  match s with
  | EmptyString => true
  | String c r => p c && all_chars p r
  end.

Definition first_char (s : string) : option ascii :=
  match s with
  | EmptyString => None
  | String c _ => Some c
  end.

Fixpoint last_char (s : string) : option ascii :=
  match s with
  | EmptyString => None
  | String c EmptyString => Some c
  | String _ r => last_char r
  end.

(** The world [w] after the events [evs] were logged. *)
Definition log (evs : list event) (w : world) : world :=
  {| reviews_db := reviews_db w; trace := trace w ++ evs |}.

(** The review texts [get_ai_tags] was called with, in order. *)
Definition classifier_calls (evs : list event) : list string :=
  omap (fun ev => match ev with Call_get_ai_tags t => Some t | _ => None end)
       evs.

(** What [get_ai_tags] returns and logs, read off its three paths; tied
    to the code by [get_ai_tags_run]. *)
Definition get_ai_tags_result (env : environ) (review_text : string)
  : list string :=
  if credential_configured env then
    match ChatCompletion_create env (prompt review_text) with
    | Completed content => slice_to 3 (parse_tags (strip content))
    | Failed => mock_tags review_text
    end
  else mock_tags review_text.

Definition get_ai_tags_events (env : environ) (review_text : string)
  : list event :=
  Call_get_ai_tags review_text ::
  if credential_configured env then
    Call_ChatCompletion (prompt review_text) ::
    match ChatCompletion_create env (prompt review_text) with
    | Completed content => [Print_raw_output (strip content)]
    | Failed => [Print_openai_error]
    end
  else [].

(** The dict returned on line 78. *)
Definition analyze_response (review_text : string) (found : list string)
    (elapsed : Q) : gmap string value :=
  <[ "review_text" := VStr review_text ]>
    (<[ "tags" := VList (map VStr found) ]>
      {[ "processing_time" := VFloat elapsed ]}).

(** Record invariant of the data model. *)
Definition record_invariant (r : review) : Prop :=
  length (tags r) <= 3 /\ (0 <= processing_time r)%Q.

(** States of the process: it starts with an empty store and serves
    requests one after the other; [clock_ok] constrains the two clock
    readings of each ingestion. *)
Inductive reachable (clock_ok : Q -> Q -> Prop) : world -> Prop :=
| reach_start : reachable clock_ok initial_world
| reach_analyze (w : world) (env : environ) (t0 t1 : Q)
      (body : request_body) :
    reachable clock_ok w ->
    clock_ok t0 t1 ->
    reachable clock_ok (analyze_review env t0 t1 body w).2
| reach_summary (w : world) :
    reachable clock_ok w ->
    reachable clock_ok (get_summary w).2.

Definition any_clock (t0 t1 : Q) : Prop := True.
Definition forward_clock (t0 t1 : Q) : Prop := (t0 <= t1)%Q.

(** ** Sample inputs *)

Definition no_credential : environ :=
  {| OPENAI_API_KEY := None; ChatCompletion_create := fun _ => Failed |}.

Definition replying (content : string) : environ :=
  {| OPENAI_API_KEY := Some "sk-test";
     ChatCompletion_create := fun _ => Completed content |}.

Definition request (s : string) : value :=
  VDict {[ "review_text" := VStr s ]}.

Definition quoted (s : string) : string :=
  String dquote (s +:+ String dquote EmptyString).

Definition three_reviews : world :=
  {| reviews_db :=
       [ {| text := "The item arrived late";
            tags := ["late_delivery"; "shipping_delay"];
            processing_time := to_double (37 # 1000) |};
         {| text := "broken";
            tags := ["defective_item"; "product_failure"];
            processing_time := to_double (12 # 1000) |};
         {| text := "late again";
            tags := ["late_delivery"; "shipping_delay"];
            processing_time := to_double (14 # 1000) |} ];
     trace := [] |}.

(** ** Vocabulary of the further properties *)

(** Sum of the counts of a ranking. *)
Definition sum_counts (d : list (string * Z)) : Z :=
  foldr (fun p acc => (p.2 + acc)%Z) 0%Z d.

(** The payload is a JSON object whose [review_text], if present, is a
    string. *)
Definition well_formed (payload : value) : Prop :=
  exists m : gmap string value,
    payload = VDict m /\
    (m !! "review_text" = None \/ exists s, m !! "review_text" = Some (VStr s)).

(** One request to the application: the two routes of [app]. *)
Inductive call :=
| POST_analyze (env : environ) (t0 t1 : Q) (body : request_body)
| GET_summary.

Definition handle (c : call) : M (gmap string value) :=
  match c with
  | POST_analyze env t0 t1 body => analyze_review env t0 t1 body
  | GET_summary => get_summary
  end.

(** The process state after serving the calls one after the other; a
    raised exception fails that request only. *)
Fixpoint serve (cs : list call) (w : world) : world :=
  match cs with
  | [] => w
  | c :: cs' => serve cs' (handle c w).2
  end.

(** The prompts sent to the completion service, in order. *)
Definition external_calls (evs : list event) : list string :=
  omap (fun ev => match ev with Call_ChatCompletion p => Some p | _ => None end)
       evs.

(** The reply the prompt asks for, as [json.dumps] prints a list of
    strings: the items between double quotes, a comma and a space between
    two items, brackets around the whole. *)
Fixpoint tag_items (ts : list string) : string :=
  match ts with
  | [] => ""
  | t :: ts' =>
      match ts' with
      | [] => quoted t
      | _ :: _ => quoted t +:+ ", " +:+ tag_items ts'
      end
  end.

Definition tag_array (ts : list string) : string :=
  "[" +:+ tag_items ts +:+ "]".

(** A tag that line 38 hands back as it was sent: no comma, bracket or
    double quote inside, no single quote at either end. *)
Definition plain_tag (t : string) : Prop :=
  has_char "," t = false /\ has_char "[" t = false /\
  has_char "]" t = false /\ has_char dquote t = false /\
  first_char t <> Some squote /\ last_char t <> Some squote.

(** Characters of a reply that holds no tag. *)
Definition blank_reply_char (c : ascii) : bool :=
  is_space c || Ascii.eqb c "[" || Ascii.eqb c "]" || Ascii.eqb c ",".

(** The text under which a call gets stored, if it does: the trimmed
    [review_text] of a POST whose payload passes line 68. *)
Definition accepted_text (c : call) : option string :=
  match c with
  | POST_analyze _ _ _ (Json_body (VDict m)) =>
      match m !! "review_text" with
      | Some (VStr s) => if truthy (strip s) then Some (strip s) else None
      | _ => None
      end
  | _ => None
  end.

Definition sample_calls : list call :=
  [ POST_analyze no_credential 0 (1 # 128) (request " late again ");
    GET_summary;
    POST_analyze no_credential 1 2 (request "   ");
    POST_analyze no_credential 1 2 (VList []);
    POST_analyze no_credential 1 2 Not_json;
    POST_analyze (replying "[]") 5 (11 # 2) (request "Broken box") ].

(** * Properties *)

(** ** Substring tests *)

Lemma startswith_spec (sub s : string) :
  startswith sub s = true <-> exists post : string, s = sub +:+ post.
Proof.
  revert s; induction sub as [|a sub IH]; intros s; simpl.
  - split; [intros _; by exists s | done].
  - destruct s as [|b s].
    + split; [done | intros [post H]; discriminate H].
    + rewrite andb_true_iff, Ascii.eqb_eq, IH. split.
      * intros [-> [post ->]]. by exists post.
      * intros [post H]. injection H as -> ->. split; [done | by exists post].
Qed.

Lemma contains_spec (sub s : string) :
  contains sub s = true <-> occurs_in sub s.
Proof.
  unfold occurs_in. induction s as [|c s IH].
  - simpl. rewrite orb_false_r, startswith_spec. split.
    + intros [post H]. by exists EmptyString, post.
    + intros [[|? pre] [post H]]; [by exists post | discriminate H].
  - cbn [contains]. rewrite orb_true_iff, startswith_spec, IH. split.
    + intros [[post H] | (pre & post & H)].
      * by exists EmptyString, post.
      * exists (String c pre), post. simpl. by rewrite H.
    + intros [[|x pre] [post H]].
      * left. by exists post.
      * right. simpl in H. injection H as -> ->. by exists pre, post.
Qed.

Lemma contains_false_spec (sub s : string) :
  contains sub s = false <-> ~ occurs_in sub s.
Proof. rewrite <- contains_spec. by destruct (contains sub s). Qed.

(** ** Stripping and splitting *)

Lemma append_String (x : ascii) (a b : string) :
  String x a +:+ b = String x (a +:+ b).
Proof. done. Qed.

Lemma append_Empty (b : string) : "" +:+ b = b.
Proof. done. Qed.

Section Strip.
Variable p : ascii -> bool.

Lemma lstrip_spec (s : string) :
  exists pre : string,
    s = pre +:+ lstrip p s /\ all_chars p pre = true /\
    forall c, first_char (lstrip p s) = Some c -> p c = false.
Proof.
  induction s as [|x s (pre & Heq & Hall & Hfirst)]; simpl.
  - by exists "".
  - destruct (p x) eqn:Hx.
    + exists (String x pre). simpl. rewrite Hx, Hall, append_String.
      by rewrite <- Heq.
    + exists "". split_and!; [done..|]. by intros c [= <-].
Qed.

Lemma rstrip_spec (s : string) :
  exists post : string,
    s = rstrip p s +:+ post /\ all_chars p post = true /\
    forall c, last_char (rstrip p s) = Some c -> p c = false.
Proof.
  induction s as [|x s (post & Heq & Hall & Hlast)]; simpl.
  - by exists "".
  - destruct (rstrip p s) as [|y r] eqn:Hr.
    + rewrite append_Empty in Heq. subst post. destruct (p x) eqn:Hx.
      * exists (String x s). simpl. by rewrite Hx, Hall.
      * exists s. split_and!; [done..|]. by intros c [= <-].
    + exists post. rewrite append_String, <- Heq. done.
Qed.

Lemma rstrip_first_char (s : string) (c : ascii) :
  first_char (rstrip p s) = Some c -> first_char s = Some c.
Proof.
  destruct (rstrip_spec s) as (post & Heq & _).
  destruct (rstrip p s); [done|]. rewrite Heq, append_String. done.
Qed.

Lemma lstrip_fixed (s : string) :
  (forall c, first_char s = Some c -> p c = false) -> lstrip p s = s.
Proof.
  destruct s as [|x s]; [done|]. intros H. simpl. by rewrite (H x).
Qed.

Lemma rstrip_fixed (s : string) :
  (forall c, last_char s = Some c -> p c = false) -> rstrip p s = s.
Proof.
  induction s as [|x s IH]; [done|]. intros H. simpl.
  destruct s as [|y s].
  - simpl. by rewrite (H x).
  - rewrite IH; [done|]. intros c Hc. by apply H.
Qed.

Lemma has_char_lstrip (c : ascii) (s : string) :
  has_char c (lstrip p s) = true -> has_char c s = true.
Proof.
  induction s as [|x s IH]; simpl; [done|].
  destruct (p x); [|done]. intros ->%IH. apply orb_true_r.
Qed.

Lemma has_char_rstrip (c : ascii) (s : string) :
  has_char c (rstrip p s) = true -> has_char c s = true.
Proof.
  induction s as [|x s IH]; simpl; [done|].
  destruct (rstrip p s) as [|y r].
  - destruct (p x); simpl; [done|].
    rewrite orb_false_r. by intros ->.
  - cbn [has_char] in *. intros [->|H]%orb_true_iff; [done|].
    by rewrite IH, orb_true_r.
Qed.
End Strip.

(** [s.strip()] removes a blank prefix and a blank suffix, and what is left
    neither starts nor ends with a blank. *)
Lemma strip_spec (s : string) :
  exists pre post : string,
    s = pre +:+ strip s +:+ post /\
    all_chars is_space pre = true /\ all_chars is_space post = true /\
    (forall c, first_char (strip s) = Some c -> is_space c = false) /\
    (forall c, last_char (strip s) = Some c -> is_space c = false).
Proof.
  unfold strip.
  destruct (lstrip_spec is_space s) as (pre & Hs & Hpre & Hfirst).
  destruct (rstrip_spec is_space (lstrip is_space s))
    as (post & Hl & Hpost & Hlast).
  exists pre, post. split_and!; [|done|done| |done].
  - by rewrite <- Hl.
  - intros c Hc. by apply Hfirst, (rstrip_first_char is_space).
Qed.

Lemma strip_fixed (s : string) :
  strip s = s <->
  (forall c, first_char s = Some c -> is_space c = false) /\
  (forall c, last_char s = Some c -> is_space c = false).
Proof.
  split.
  - intros Heq. destruct (strip_spec s) as (_ & _ & _ & _ & _ & Hf & Hl).
    rewrite Heq in Hf, Hl. done.
  - intros [Hf Hl]. unfold strip.
    by rewrite (lstrip_fixed is_space s Hf), (rstrip_fixed is_space s Hl).
Qed.

Lemma has_char_strip (c : ascii) (s : string) :
  has_char c (strip s) = true -> has_char c s = true.
Proof.
  unfold strip. intros H. by eapply has_char_lstrip, has_char_rstrip.
Qed.

Lemma has_char_strip_char (c q : ascii) (s : string) :
  has_char c (strip_char q s) = true -> has_char c s = true.
Proof.
  unfold strip_char. intros H. by eapply has_char_lstrip, has_char_rstrip.
Qed.

Lemma has_char_remove_char (c x : ascii) (s : string) :
  has_char c (remove_char x s) = (has_char c s && negb (Ascii.eqb x c)).
Proof.
  induction s as [|y s IH]; simpl; [done|].
  destruct (Ascii.eqb y x) eqn:Hyx; simpl; rewrite IH.
  - apply Ascii.eqb_eq in Hyx as ->.
    destruct (Ascii.eqb x c), (has_char c s); done.
  - destruct (Ascii.eqb y c) eqn:Hyc; simpl; [|done].
    apply Ascii.eqb_eq in Hyc as ->. rewrite Ascii.eqb_sym, Hyx. done.
Qed.

Lemma split_not_nil (c : ascii) (s : string) : split c s <> [].
Proof.
  induction s as [|x s IH]; simpl; [done|].
  destruct (Ascii.eqb x c); [done|]. by destruct (split c s).
Qed.

Lemma has_char_split (c x : ascii) (s t : string) :
  t ∈ split x s ->
  has_char c t = true -> has_char c s = true /\ c <> x.
Proof.
  revert t. induction s as [|y s IH]; simpl; intros t Hin Ht.
  - apply list_elem_of_singleton in Hin as ->. done.
  - destruct (Ascii.eqb y x) eqn:Hyx.
    + apply elem_of_cons in Hin as [->|Hin]; [done|].
      destruct (IH t Hin Ht) as [-> ?]. by rewrite orb_true_r.
    + pose proof (split_not_nil x s) as Hne.
      destruct (split x s) as [|h tl]; [done|].
      apply elem_of_cons in Hin as [->|Hin].
      * cbn [has_char] in Ht. apply orb_true_iff in Ht as [Hy|Hh].
        -- rewrite Hy. split; [done|]. apply Ascii.eqb_eq in Hy as ->.
           intros ->. by rewrite Ascii.eqb_refl in Hyx.
        -- destruct (IH h) as [-> ?]; [by left|done|]. by rewrite orb_true_r.
      * destruct (IH t) as [-> ?]; [by right|done|]. by rewrite orb_true_r.
Qed.

Lemma parse_tags_no_separators (ai_output t : string) :
  t ∈ parse_tags ai_output ->
  has_char "," t = false /\ has_char "[" t = false /\ has_char "]" t = false.
Proof.
  unfold parse_tags. intros Hin.
  apply list_elem_of_In, in_map_iff in Hin as (t0 & <- & Hin).
  apply list_elem_of_In, list_elem_of_filter in Hin as [_ Hin].
  assert (forall c,
            has_char c (strip_char squote (strip_char dquote (strip t0)))
              = true ->
            has_char c (remove_char "]" (remove_char "[" ai_output)) = true
            /\ c <> ","%char) as H.
  { intros c Hc. apply (has_char_split c _ _ t0 Hin).
    by apply has_char_strip_char, has_char_strip_char, has_char_strip in Hc. }
  split_and!; apply not_true_is_false; intros Hc; apply H in Hc as [Hc Hne].
  - done.
  - rewrite !has_char_remove_char in Hc. simpl in Hc.
    by rewrite andb_false_r in Hc.
  - rewrite !has_char_remove_char in Hc. simpl in Hc.
    by rewrite andb_false_r in Hc.
Qed.

(** ** The fallback rules *)

Lemma lower_append (a b : string) : lower (a +:+ b) = lower a +:+ lower b.
Proof.
  induction a as [|x a IH]; [done|].
  rewrite append_String. cbn [lower]. by rewrite IH.
Qed.

(** Matching on the lowercased text ignores the case of the review. *)
Lemma occurs_in_lower (u s : string) :
  occurs_in u s -> occurs_in (lower u) (lower s).
Proof.
  intros (pre & post & ->). exists (lower pre), (lower post).
  by rewrite !lower_append.
Qed.

Lemma get_ai_tags_fallback (env : environ) (review_text : string) (w : world) :
  credential_configured env = false \/
  ChatCompletion_create env (prompt review_text) = Failed ->
  (get_ai_tags env review_text w).1 = Return (mock_tags review_text).
Proof.
  unfold credential_configured, get_ai_tags, bind, emit, ret.
  intros [Hkey | Hcall]; simpl.
  - destruct (OPENAI_API_KEY env) as [k|]; [|done]. by rewrite Hkey.
  - destruct (OPENAI_API_KEY env) as [k|]; [|done].
    destruct (truthy k); [|done]. simpl. by rewrite Hcall.
Qed.

Section MockRules.
Variable review_text : string.

Let kw (k : string) : Prop := occurs_in k (lower review_text).

Lemma mock_tags_late :
  kw "late" \/ kw "delay" ->
  mock_tags review_text = ["late_delivery"; "shipping_delay"].
Proof.
  unfold kw, mock_tags. rewrite <- !contains_spec, <- orb_true_iff.
  by intros ->.
Qed.

Lemma mock_tags_broken :
  ~ (kw "late" \/ kw "delay") ->
  kw "broken" \/ kw "not working" ->
  mock_tags review_text = ["defective_item"; "product_failure"].
Proof.
  unfold kw, mock_tags. rewrite <- !contains_spec, <- !orb_true_iff.
  intros ->%not_true_is_false. by intros ->.
Qed.

Lemma mock_tags_refund :
  ~ (kw "late" \/ kw "delay") ->
  ~ (kw "broken" \/ kw "not working") ->
  kw "refund" \/ kw "return" ->
  mock_tags review_text = ["refund_request"; "customer_service"].
Proof.
  unfold kw, mock_tags. rewrite <- !contains_spec, <- !orb_true_iff.
  intros ->%not_true_is_false ->%not_true_is_false. by intros ->.
Qed.

Lemma mock_tags_general :
  ~ (kw "late" \/ kw "delay") ->
  ~ (kw "broken" \/ kw "not working") ->
  ~ (kw "refund" \/ kw "return") ->
  mock_tags review_text = ["general_feedback"].
Proof.
  unfold kw, mock_tags. rewrite <- !contains_spec, <- !orb_true_iff.
  by intros ->%not_true_is_false ->%not_true_is_false ->%not_true_is_false.
Qed.
End MockRules.

(** C1. Without a configured credential, or when the remote call fails,
    [get_ai_tags] returns the result of the keyword rules, which are tried
    in a fixed order on the lowercased text and stop at the first match:
    "late"/"delay", then "broken"/"not working", then "refund"/"return",
    then the general tag. A text that has both "late" and "broken" gets
    the late-delivery tags and not the defective-item tags. *)
Theorem fallback_rules_in_priority_order
    (env : environ) (review_text : string) (w : world) :
  credential_configured env = false \/
  ChatCompletion_create env (prompt review_text) = Failed ->
  let kw k := occurs_in k (lower review_text) in
  exists found : list string,
    (get_ai_tags env review_text w).1 = Return found /\
    (kw "late" \/ kw "delay" ->
       found = ["late_delivery"; "shipping_delay"]) /\
    (~ (kw "late" \/ kw "delay") ->
     kw "broken" \/ kw "not working" ->
       found = ["defective_item"; "product_failure"]) /\
    (~ (kw "late" \/ kw "delay") ->
     ~ (kw "broken" \/ kw "not working") ->
     kw "refund" \/ kw "return" ->
       found = ["refund_request"; "customer_service"]) /\
    (~ (kw "late" \/ kw "delay") ->
     ~ (kw "broken" \/ kw "not working") ->
     ~ (kw "refund" \/ kw "return") ->
       found = ["general_feedback"]) /\
    (kw "late" -> kw "broken" ->
       found = ["late_delivery"; "shipping_delay"] /\
       found <> ["defective_item"; "product_failure"]) /\
    (forall u : string,
       occurs_in u review_text ->
       lower u = "late" \/ lower u = "delay" ->
       found = ["late_delivery"; "shipping_delay"]).
Proof.
  intros Hfb kw. exists (mock_tags review_text).
  split; [by apply get_ai_tags_fallback|].
  repeat split.
  - apply mock_tags_late.
  - apply mock_tags_broken.
  - apply mock_tags_refund.
  - apply mock_tags_general.
  - apply mock_tags_late. by left.
  - rewrite mock_tags_late by (by left). discriminate.
  - intros u Hu%occurs_in_lower Hkw. apply mock_tags_late.
    by destruct Hkw as [<- | <-]; [left | right].
Qed.

(** ** The frequency dict and the stable sort *)

Lemma dict_get_set (k k' : string) (v dflt : Z) (d : freq_dict) :
  dict_get k dflt (dict_set k' v d)
  = if decide (k' = k) then v else dict_get k dflt d.
Proof.
  induction d as [|[k0 v0] d IH]; simpl.
  - done.
  - destruct (decide (k0 = k')) as [->|Hne]; simpl.
    + by destruct (decide (k' = k)).
    + destruct (decide (k0 = k)) as [->|]; [|done].
      by rewrite decide_False.
Qed.

Lemma dict_set_keys (k : string) (v : Z) (d : freq_dict) :
  (dict_set k v d).*1 = if decide (k ∈ d.*1) then d.*1 else d.*1 ++ [k].
Proof.
  induction d as [|[k0 v0] d IH].
  - by rewrite decide_False by apply not_elem_of_nil.
  - cbn [dict_set]. rewrite !fmap_cons. cbn [fst].
    destruct (decide (k0 = k)) as [->|Hne].
    + rewrite decide_True by left. done.
    + rewrite fmap_cons, IH. cbn [fst].
      destruct (decide (k ∈ d.*1)) as [Hin|Hnin].
      * by rewrite decide_True by (by right).
      * rewrite decide_False; [done|]. rewrite elem_of_cons.
        by intros [->|?].
Qed.

Lemma dict_get_elem_of (k : string) (v dflt : Z) (d : freq_dict) :
  NoDup d.*1 -> (k, v) ∈ d -> dict_get k dflt d = v.
Proof.
  induction d as [|[k0 v0] d IH]; simpl; intros Hnd Hin.
  - by apply elem_of_nil in Hin.
  - apply NoDup_cons in Hnd as [Hk0 Hnd].
    apply elem_of_cons in Hin as [[= -> ->]|Hin].
    + by rewrite decide_True.
    + rewrite decide_False; [by apply IH|].
      intros ->. apply Hk0. by apply (list_elem_of_fmap_2 fst) in Hin.
Qed.

Lemma count_tags_snoc (l : list string) (t : string) :
  count_tags (l ++ [t]) =
  dict_set t (dict_get t 0 (count_tags l) + 1)%Z (count_tags l).
Proof. unfold count_tags. by rewrite fold_left_app. Qed.

Lemma occurrences_snoc (t x : string) (l : list string) :
  occurrences t (l ++ [x]) =
  if decide (x = t) then S (occurrences t l) else occurrences t l.
Proof.
  unfold occurrences. rewrite filter_app, length_app, filter_cons, filter_nil.
  destruct (decide (x = t)); simpl; lia.
Qed.

Lemma count_tags_get (l : list string) (t : string) :
  dict_get t 0 (count_tags l) = Z.of_nat (occurrences t l).
Proof.
  induction l as [|x l IH] using rev_ind; [done|].
  rewrite count_tags_snoc, dict_get_set, occurrences_snoc.
  destruct (decide (x = t)) as [->|]; [|done]. rewrite IH. lia.
Qed.

Lemma count_tags_keys_elem_of (l : list string) (t : string) :
  t ∈ (count_tags l).*1 <-> t ∈ l.
Proof.
  induction l as [|x l IH] using rev_ind.
  - done.
  - rewrite count_tags_snoc, dict_set_keys, elem_of_app, list_elem_of_singleton.
    destruct (decide (x ∈ (count_tags l).*1)) as [Hin|Hnin].
    + rewrite IH. split; [tauto|]. intros [?| ->]; [done|]. by apply IH.
    + rewrite elem_of_app, list_elem_of_singleton, IH. tauto.
Qed.

Lemma count_tags_keys_NoDup (l : list string) : NoDup (count_tags l).*1.
Proof.
  induction l as [|x l IH] using rev_ind.
  - constructor.
  - rewrite count_tags_snoc, dict_set_keys.
    destruct (decide (x ∈ (count_tags l).*1)) as [Hin|Hnin]; [done|].
    apply NoDup_app. split_and!; [done| |apply NoDup_singleton].
    intros y Hy ->%list_elem_of_singleton. done.
Qed.

Lemma first_index_lt (t : string) (l : list string) :
  t ∈ l -> first_index t l < length l.
Proof.
  induction l as [|x l IH]; simpl; intros Hin.
  - by apply elem_of_nil in Hin.
  - destruct (decide (x = t)); [lia|].
    apply elem_of_cons in Hin as [->|Hin]; [done|]. specialize (IH Hin). lia.
Qed.

Lemma first_index_app_l (t : string) (l l' : list string) :
  t ∈ l -> first_index t (l ++ l') = first_index t l.
Proof.
  induction l as [|x l IH]; simpl; intros Hin.
  - by apply elem_of_nil in Hin.
  - destruct (decide (x = t)); [done|].
    apply elem_of_cons in Hin as [->|Hin]; [done|]. by rewrite IH.
Qed.

Lemma first_index_fresh (t : string) (l : list string) :
  t ∉ l -> first_index t (l ++ [t]) = length l.
Proof.
  induction l as [|x l IH]; simpl; intros Hnin.
  - by rewrite decide_True.
  - apply not_elem_of_cons in Hnin as [Hne Hnin].
    rewrite decide_False by done. by rewrite IH.
Qed.

Lemma first_index_lookup (t : string) (l : list string) :
  t ∈ l ->
  l !! first_index t l = Some t /\
  forall j, j < first_index t l -> l !! j <> Some t.
Proof.
  induction l as [|x l IH]; simpl; intros Hin.
  - by apply elem_of_nil in Hin.
  - destruct (decide (x = t)) as [->|Hne].
    + split; [done | lia].
    + apply elem_of_cons in Hin as [->|Hin]; [done|].
      destruct (IH Hin) as [Hat Hbefore]. split; [done|].
      intros [|j] Hj; simpl; [congruence|]. apply Hbefore. lia.
Qed.

(** Keys of [freq] are in order of first occurrence. *)
Lemma count_tags_keys_order (l : list string) (a b : string) :
  [a; b] `sublist_of` (count_tags l).*1 -> first_index a l < first_index b l.
Proof.
  revert a b. induction l as [|x l IH] using rev_ind; intros a b Hsub.
  - simpl in Hsub. by apply sublist_nil_r in Hsub.
  - rewrite count_tags_snoc, dict_set_keys in Hsub.
    destruct (decide (x ∈ (count_tags l).*1)) as [Hin|Hnin].
    + assert (a ∈ l /\ b ∈ l) as [Ha Hb].
      { split; apply count_tags_keys_elem_of;
          apply (sublist_subseteq _ _ Hsub); repeat constructor. }
      rewrite !first_index_app_l by done. by apply IH.
    + apply sublist_app_r in Hsub as (k1 & k2 & Heq & Hk1 & Hk2).
      destruct k2 as [|y k2].
      * rewrite app_nil_r in Heq. subst k1.
        assert (a ∈ l /\ b ∈ l) as [Ha Hb].
        { split; apply count_tags_keys_elem_of;
            apply (sublist_subseteq _ _ Hk1); repeat constructor. }
        rewrite !first_index_app_l by done. by apply IH.
      * assert (k2 = []) as ->.
        { apply sublist_length in Hk2. simpl in Hk2.
          destruct k2; [done | simpl in Hk2; lia]. }
        assert (y = x) as ->.
        { apply sublist_subseteq in Hk2.
          by apply list_elem_of_singleton, Hk2, list_elem_of_here. }
        destruct k1 as [|a' [|b' k1]]; [discriminate Heq| |].
        2:{ injection Heq as _ _ Heq. by destruct k1. }
        injection Heq as <- ->.
        assert (a ∈ l) as Ha.
        { apply count_tags_keys_elem_of, (sublist_subseteq _ _ Hk1).
          constructor. }
        rewrite first_index_app_l by done.
        rewrite first_index_fresh.
        -- by apply first_index_lt.
        -- by rewrite <- count_tags_keys_elem_of.
Qed.
Section SortedReverseFacts.
Context {A : Type} (key : A -> Z).

Lemma insert_desc_Permutation (x : A) (l : list A) :
  insert_desc key x l ≡ₚ x :: l.
Proof.
  induction l as [|y l IH]; simpl; [done|].
  destruct (key x <? key y)%Z; [|done].
  by rewrite IH, Permutation_swap.
Qed.

Lemma sorted_reverse_Permutation (l : list A) : sorted_reverse key l ≡ₚ l.
Proof.
  induction l as [|x l IH]; simpl; [done|].
  by rewrite insert_desc_Permutation, IH.
Qed.

Lemma insert_desc_StronglySorted (x : A) (l : list A) :
  StronglySorted (by_key_desc key) l ->
  StronglySorted (by_key_desc key) (insert_desc key x l).
Proof.
  induction 1 as [|y l Hl IH Hy]; simpl.
  - repeat constructor.
  - destruct (key x <? key y)%Z eqn:Hlt.
    + constructor; [done|].
      rewrite insert_desc_Permutation. constructor; [|done].
      unfold by_key_desc. lia.
    + constructor; [by constructor|].
      constructor; [unfold by_key_desc; lia|].
      eapply Forall_impl; [exact Hy|]. unfold by_key_desc. intros; lia.
Qed.

Lemma sorted_reverse_StronglySorted (l : list A) :
  StronglySorted (by_key_desc key) (sorted_reverse key l).
Proof.
  induction l as [|x l IH]; simpl; [constructor|].
  by apply insert_desc_StronglySorted.
Qed.

Lemma insert_desc_filter_key (c : Z) (x : A) (l : list A) :
  filter (fun y => key y = c) (insert_desc key x l) =
  filter (fun y => key y = c) (x :: l).
Proof.
  induction l as [|y l IH]; simpl; [done|].
  destruct (key x <? key y)%Z eqn:Hlt; [|done].
  rewrite (filter_cons _ y), IH, !filter_cons.
  destruct (decide (key y = c)), (decide (key x = c)); try done. lia.
Qed.

(** Stability: entries with the same key keep their relative order. *)
Lemma sorted_reverse_stable (c : Z) (l : list A) :
  filter (fun y => key y = c) (sorted_reverse key l) =
  filter (fun y => key y = c) l.
Proof.
  induction l as [|x l IH]; simpl; [done|].
  by rewrite insert_desc_filter_key, !filter_cons, IH.
Qed.
End SortedReverseFacts.

Lemma sublist_filter_mono {A} (P : A -> Prop) `{!forall x, Decision (P x)}
    (l1 l2 : list A) :
  l1 `sublist_of` l2 -> filter P l1 `sublist_of` filter P l2.
Proof.
  induction 1 as [|x l1 l2 _ IH|x l1 l2 _ IH]; [done| |].
  - rewrite !filter_cons. destruct (decide (P x)); [by constructor | done].
  - rewrite filter_cons. destruct (decide (P x)); [by constructor | done].
Qed.

Lemma lookup_lt_sublist {A} (l : list A) (i j : nat) (x y : A) :
  i < j -> l !! i = Some x -> l !! j = Some y -> [x; y] `sublist_of` l.
Proof.
  intros Hij Hi Hj.
  rewrite <- (take_drop_middle l i x Hi).
  apply sublist_inserts_l, sublist_skip.
  assert (y ∈ drop (S i) l) as Hy.
  { apply list_elem_of_lookup. exists (j - S i).
    rewrite lookup_drop. by replace (S i + (j - S i)) with j by lia. }
  apply list_elem_of_split in Hy as (l1 & l2 & ->).
  apply sublist_inserts_l, sublist_skip, sublist_nil_l.
Qed.

Lemma slice_to_nonneg {A} (k : Z) (l : list A) :
  (0 <= k)%Z -> slice_to k l = take (Z.to_nat k) l.
Proof. unfold slice_to. intros Hk. by rewrite (proj2 (Z.leb_le 0 k) Hk). Qed.

Lemma slice_to_sublist {A} (k : Z) (l : list A) : slice_to k l `sublist_of` l.
Proof. unfold slice_to. destruct (0 <=? k)%Z; apply sublist_take. Qed.

Lemma StronglySorted_sublist {A} (R : relation A) (l1 l2 : list A) :
  l1 `sublist_of` l2 -> StronglySorted R l2 -> StronglySorted R l1.
Proof.
  induction 1 as [|x l1 l2 Hsub IH|x l1 l2 Hsub IH]; intros Hs.
  - constructor.
  - apply StronglySorted_inv in Hs as [Hs Hx]. constructor; [by apply IH|].
    apply Forall_forall. intros y Hy. rewrite Forall_forall in Hx.
    apply Hx. by apply (sublist_subseteq _ _ Hsub).
  - apply StronglySorted_inv in Hs as [Hs _]. by apply IH.
Qed.

Lemma top_k_tags_elem_of (tag_list : list string) (k : Z) (t : string) (c : Z) :
  (t, c) ∈ top_k_tags tag_list k ->
  t ∈ tag_list /\ c = Z.of_nat (occurrences t tag_list).
Proof.
  intros Hin.
  assert ((t, c) ∈ count_tags tag_list) as Hfreq.
  { rewrite <- (sorted_reverse_Permutation snd).
    by apply (sublist_subseteq _ _ (slice_to_sublist k _)). }
  split.
  - apply count_tags_keys_elem_of. by apply (list_elem_of_fmap_2 fst) in Hfreq.
  - rewrite <- count_tags_get. symmetry.
    apply dict_get_elem_of; [apply count_tags_keys_NoDup | done].
Qed.

(** C5. For k >= 0, [top_k_tags] returns at most k pairs, sorted by
    descending count; no tag appears twice, each tag comes with the number
    of its occurrences in the input, and tags with equal counts stand in
    the order of their first occurrence in the input. *)
Theorem top_k_tags_spec (tag_list : list string) (k : Z) :
  (0 <= k)%Z ->
  let out := top_k_tags tag_list k in
  (Z.of_nat (length out) <= k)%Z /\
  StronglySorted (by_key_desc snd) out /\
  NoDup out.*1 /\
  (forall t c, (t, c) ∈ out ->
     t ∈ tag_list /\ c = Z.of_nat (occurrences t tag_list)) /\
  (forall i j a b c,
     i < j -> out !! i = Some (a, c) -> out !! j = Some (b, c) ->
     first_index a tag_list < first_index b tag_list).
Proof.
  intros Hk out.
  assert (out `sublist_of` sorted_reverse snd (count_tags tag_list)) as Hsub
    by apply slice_to_sublist.
  split_and!.
  - subst out. unfold top_k_tags.
    rewrite slice_to_nonneg, length_take by done. lia.
  - eapply StronglySorted_sublist; [exact Hsub|].
    apply sorted_reverse_StronglySorted.
  - eapply sublist_NoDup; [|by apply fmap_sublist].
    rewrite sorted_reverse_Permutation. apply count_tags_keys_NoDup.
  - intros t c. apply top_k_tags_elem_of.
  - intros i j a b c Hij Hi Hj.
    apply count_tags_keys_order.
    change [a; b] with ([(a, c); (b, c)].*1). apply fmap_sublist.
    etrans; [|apply (sublist_filter (fun p => p.2 = c))].
    rewrite <- (sorted_reverse_stable snd c).
    assert (filter (fun p : string * Z => p.2 = c) [(a, c); (b, c)]
            = [(a, c); (b, c)]) as <-.
    { rewrite !filter_cons, filter_nil. by rewrite !decide_True by done. }
    apply sublist_filter_mono. etrans; [|exact Hsub].
    by apply (lookup_lt_sublist out i j).
Qed.

(** X1. What [top_k_tags] leaves out is no more frequent than what it
    returns. *)
Lemma top_k_tags_omitted (tag_list : list string) (k : Z) (t : string) :
  (0 <= k)%Z ->
  t ∈ tag_list ->
  t ∉ (top_k_tags tag_list k).*1 ->
  Z.of_nat (length (top_k_tags tag_list k)) = k /\
  forall a c, (a, c) ∈ top_k_tags tag_list k ->
    (Z.of_nat (occurrences t tag_list) <= c)%Z.
Proof.
  intros Hk Hin Hout. unfold top_k_tags in *.
  rewrite slice_to_nonneg in * by done.
  set (sorted := sorted_reverse snd (count_tags tag_list)) in *.
  apply count_tags_keys_elem_of, list_elem_of_fmap in Hin as ([t' n] & -> & Hn).
  cbn [fst] in *.
  assert (n = Z.of_nat (occurrences t' tag_list)) as Hocc.
  { rewrite <- count_tags_get. symmetry.
    apply dict_get_elem_of; [apply count_tags_keys_NoDup | done]. }
  rewrite <- (sorted_reverse_Permutation snd) in Hn. fold sorted in Hn.
  rewrite <- (take_drop (Z.to_nat k) sorted) in Hn.
  apply elem_of_app in Hn as [Hn | Hn].
  { destruct Hout. by apply (list_elem_of_fmap_2 fst) in Hn. }
  split.
  - rewrite length_take.
    assert (Z.to_nat k < length sorted); [|lia].
    destruct (decide (Z.to_nat k < length sorted)) as [|Hge]; [done|].
    rewrite drop_ge in Hn by lia. by apply elem_of_nil in Hn.
  - intros a c Ha. rewrite <- Hocc.
    pose proof (sorted_reverse_StronglySorted snd (count_tags tag_list)) as Hs.
    fold sorted in Hs. rewrite <- (take_drop (Z.to_nat k) sorted) in Hs.
    apply (StronglySorted_app_1_elem_of _ _ _ _ _ Hs Ha Hn).
Qed.

(** ** Rounding *)


Lemma round_half_even_near (y : Q) :
  (Qabs (inject_Z (round_half_even y) - y) <= 1 # 2)%Q.
Proof.
  unfold round_half_even.
  pose proof (Qfloor_le y) as Hlo. pose proof (Qlt_floor y) as Hhi.
  set (f := Qfloor y) in *.
  rewrite inject_Z_plus in Hhi. change (inject_Z 1) with 1%Q in Hhi.
  assert (inject_Z (f + 1) == inject_Z f + 1)%Q as Hf1
    by (by rewrite inject_Z_plus).
  apply Qabs_Qle_condition.
  destruct (y - inject_Z f ?= 1 # 2)%Q eqn:Hc.
  - apply Qeq_alt in Hc.
    destruct (Z.even f); [|rewrite Hf1]; split; lra.
  - apply Qlt_alt in Hc. split; lra.
  - apply Qgt_alt in Hc. rewrite Hf1. split; lra.
Qed.

Lemma round_half_even_nonneg (y : Q) :
  (0 <= y)%Q -> (0 <= round_half_even y)%Z.
Proof.
  intros Hy. unfold round_half_even.
  assert (0 <= Qfloor y)%Z as Hf.
  { change 0%Z with (Qfloor 0). by apply Qfloor_resp_le. }
  destruct (y - inject_Z (Qfloor y) ?= 1 # 2)%Q; [destruct (Z.even _)| |]; lia.
Qed.

Lemma scale_pos (n : nat) : (0 < inject_Z (10 ^ Z.of_nat n))%Q.
Proof.
  change 0%Q with (inject_Z 0). rewrite <- Zlt_Qlt.
  apply Z.pow_pos_nonneg; lia.
Qed.

(** ** Floating point *)

Lemma pow2_pos (e : Z) : (0 < pow2 e)%Q.
Proof. unfold pow2. apply Qpower_0_lt. done. Qed.

Lemma pow2_plus (a b : Z) : (pow2 (a + b) == pow2 a * pow2 b)%Q.
Proof. unfold pow2. apply Qpower_plus. done. Qed.

Lemma pow2_of_nonneg (a : Z) : (0 <= a)%Z -> (pow2 a == inject_Z (2 ^ a))%Q.
Proof. intros Ha. unfold pow2. by rewrite Zpower_Qpower. Qed.

Lemma pow2_minus (a b : Z) :
  (0 <= a)%Z -> (0 <= b)%Z ->
  (pow2 (a - b) == inject_Z (2 ^ a) / inject_Z (2 ^ b))%Q.
Proof.
  intros Ha Hb. unfold pow2. rewrite Qpower_minus by done.
  fold (pow2 a) (pow2 b). by rewrite !pow2_of_nonneg.
Qed.

Lemma inject_Z_pos (z : Z) : (0 < z)%Z -> (0 < inject_Z z)%Q.
Proof. intros Hz. change 0%Q with (inject_Z 0). by rewrite <- Zlt_Qlt. Qed.

Lemma inject_Z_nonneg (z : Z) : (0 <= z)%Z -> (0 <= inject_Z z)%Q.
Proof. intros Hz. change 0%Q with (inject_Z 0). by rewrite <- Zle_Qle. Qed.

(** [ilog2 q] is the exponent of the binade of [q]. *)
Lemma ilog2_spec (q : Q) :
  (0 < q)%Q -> (pow2 (ilog2 q) <= q /\ q < pow2 (ilog2 q + 1))%Q.
Proof.
  intros Hq. destruct q as [n d]. unfold ilog2. cbn [Qnum Qden].
  assert (0 < n)%Z as Hn by (unfold Qlt in Hq; simpl in Hq; lia).
  pose proof (Z.log2_spec n Hn) as [Hn1 Hn2].
  pose proof (Z.log2_spec (Z.pos d) (Pos2Z.is_pos d)) as [Hd1 Hd2].
  pose proof (Z.log2_nonneg n) as Ha. pose proof (Z.log2_nonneg (Z.pos d)) as Hb.
  set (a := Z.log2 n) in *. set (b := Z.log2 (Z.pos d)) in *.
  assert (0 < 2 ^ a)%Z as HA by (apply Z.pow_pos_nonneg; lia).
  assert (0 < 2 ^ b)%Z as HB by (apply Z.pow_pos_nonneg; lia).
  assert (2 ^ Z.succ a = 2 * 2 ^ a)%Z as Ea by (by rewrite Z.pow_succ_r).
  assert (2 ^ Z.succ b = 2 * 2 ^ b)%Z as Eb by (by rewrite Z.pow_succ_r).
  destruct (Qle_bool (pow2 (a - b)) (n # d)) eqn:Hle.
  - apply Qle_bool_iff in Hle. split; [done|].
    replace (a - b + 1)%Z with (Z.succ a - b)%Z by lia.
    rewrite pow2_minus by lia. rewrite (Qmake_Qdiv n d).
    apply Qlt_shift_div_l; [by apply inject_Z_pos|].
    unfold Qdiv. rewrite <- Qmult_assoc, (Qmult_comm (/ _)), Qmult_assoc.
    apply Qlt_shift_div_r; [by apply inject_Z_pos|].
    rewrite <- !inject_Z_mult, <- Zlt_Qlt. nia.
  - assert (~ (pow2 (a - b) <= n # d)%Q) as Hlt
      by (rewrite <- Qle_bool_iff; by rewrite Hle).
    apply Qnot_le_lt in Hlt.
    replace (a - b - 1 + 1)%Z with (a - b)%Z by lia. split; [|done].
    replace (a - b - 1)%Z with (a - Z.succ b)%Z by lia.
    rewrite pow2_minus by lia. rewrite (Qmake_Qdiv n d).
    apply Qle_shift_div_r; [apply inject_Z_pos; lia|].
    unfold Qdiv. rewrite <- Qmult_assoc, (Qmult_comm (/ _)), Qmult_assoc.
    apply Qle_shift_div_l; [by apply inject_Z_pos|].
    rewrite <- !inject_Z_mult, <- Zle_Qle. nia.
Qed.




Lemma to_double_eq (q : Q) :
  ~ (q == 0)%Q ->
  (to_double q ==
   inject_Z (round_half_even (q / pow2 (ulp_exponent q)))
   * pow2 (ulp_exponent q))%Q.
Proof.
  intros Hq. unfold to_double.
  destruct (Qeq_bool q 0) eqn:He; [by apply Qeq_bool_iff in He|].
  apply Qred_correct.
Qed.

Lemma to_double_nonneg (q : Q) : (0 <= q)%Q -> (0 <= to_double q)%Q.
Proof.
  intros Hq. unfold to_double.
  destruct (Qeq_bool q 0); [done|]. rewrite Qred_correct.
  pose proof (pow2_pos (ulp_exponent q)) as Hp.
  apply Qmult_le_0_compat; [|by apply Qlt_le_weak].
  apply inject_Z_nonneg, round_half_even_nonneg.
  apply Qle_shift_div_l; [done|]. by rewrite Qmult_0_l.
Qed.

(** Rounding to a double moves a number by at most half a unit in the
    last place. *)
Lemma to_double_near (q : Q) :
  (Qabs (to_double q - q) <= (1 # 2) * pow2 (ulp_exponent q))%Q.
Proof.
  pose proof (pow2_pos (ulp_exponent q)) as Hp.
  destruct (Qeq_dec q 0) as [H0|H0].
  - unfold to_double. apply Qeq_bool_iff in H0 as Hb. rewrite Hb.
    rewrite H0 at 1. assert (0 - 0 == 0)%Q as -> by ring.
    simpl. apply Qmult_le_0_compat; [done|by apply Qlt_le_weak].
  - rewrite (to_double_eq q H0).
    set (u := pow2 (ulp_exponent q)) in *.
    pose proof (round_half_even_near (q / u)) as Hn.
    set (z := inject_Z (round_half_even (q / u))) in *.
    assert (z * u - q == (z - q / u) * u)%Q as -> by (field; lra).
    rewrite Qabs_Qmult, (Qabs_pos u) by (by apply Qlt_le_weak).
    apply Qmult_le_compat_r; [done|by apply Qlt_le_weak].
Qed.

(** Above the subnormal range the relative error is at most [2^-53]. *)
Lemma to_double_relative (q : Q) :
  (pow2 (-1022) <= Qabs q)%Q ->
  (Qabs (to_double q - q) <= Qabs q * pow2 (-53))%Q.
Proof.
  intros Hq. pose proof (to_double_near q) as Hn.
  assert (0 < Qabs q)%Q as Hpos.
  { eapply Qlt_le_trans; [apply (pow2_pos (-1022))|done]. }
  destruct (ilog2_spec (Qabs q) Hpos) as [Hlo Hhi].
  assert (-1022 <= ilog2 (Qabs q))%Z as He.
  { destruct (Z_lt_le_dec (ilog2 (Qabs q)) (-1022)) as [Hlt|]; [|done].
    exfalso. apply (Qlt_irrefl (Qabs q)).
    eapply Qlt_le_trans; [apply Hhi|]. eapply Qle_trans; [|apply Hq].
    apply Qpower_le_compat_l; [lia|done]. }
  unfold ulp_exponent in Hn. rewrite Z.max_l in Hn by lia.
  replace (ilog2 (Qabs q) - 52)%Z with (ilog2 (Qabs q) + (-52))%Z in Hn by lia.
  rewrite pow2_plus in Hn.
  assert (pow2 (-53) == (1 # 2) * pow2 (-52))%Q as -> by done.
  pose proof (pow2_pos (-52)) as H52.
  eapply Qle_trans; [apply Hn|].
  rewrite (Qmult_comm (1 # 2)), <- !Qmult_assoc.
  apply Qmult_le_compat_r; [done|].
  apply Qmult_le_0_compat; [by apply Qlt_le_weak|done].
Qed.

Lemma py_round_nonneg (x : Q) (n : nat) :
  (0 <= x)%Q -> (0 <= py_round x n)%Q.
Proof.
  intros Hx. unfold py_round. pose proof (scale_pos n) as Hs.
  apply to_double_nonneg.
  apply Qle_shift_div_l; [done|]. rewrite Qmult_0_l.
  change 0%Q with (inject_Z 0). rewrite <- Zle_Qle.
  apply round_half_even_nonneg. by apply Qmult_le_0_compat; [|apply Qlt_le_weak].
Qed.

(** [round(x, n)] is the double nearest to a decimal number with [n]
    digits after the point that lies within half a unit of the last of
    these digits from [x]. *)
Lemma py_round_decimal (x : Q) (n : nat) :
  exists k : Z,
    py_round x n = to_double (inject_Z k / inject_Z (10 ^ Z.of_nat n)) /\
    (Qabs (inject_Z k / inject_Z (10 ^ Z.of_nat n) - x)
     <= (1 # 2) / inject_Z (10 ^ Z.of_nat n))%Q.
Proof.
  exists (round_half_even (x * inject_Z (10 ^ Z.of_nat n))).
  split; [done|]. pose proof (scale_pos n) as Hs.
  set (s := inject_Z (10 ^ Z.of_nat n)) in *.
  pose proof (round_half_even_near (x * s)) as Hn.
  set (z := inject_Z (round_half_even (x * s))) in *.
  assert (z / s - x == (z - x * s) / s)%Q as -> by (field; lra).
  unfold Qdiv at 1. rewrite Qabs_Qmult.
  rewrite (Qabs_pos (/ s)) by (apply Qlt_le_weak, Qinv_lt_0_compat, Hs).
  unfold Qdiv. apply Qmult_le_compat_r; [done|].
  by apply Qlt_le_weak, Qinv_lt_0_compat.
Qed.

Lemma fadd_nonneg (x y : Q) : (0 <= x)%Q -> (0 <= y)%Q -> (0 <= fadd x y)%Q.
Proof. intros Hx Hy. apply to_double_nonneg. lra. Qed.

Lemma fsub_nonneg (x y : Q) : (y <= x)%Q -> (0 <= fsub x y)%Q.
Proof. intros Hxy. apply to_double_nonneg. lra. Qed.

Lemma fdiv_nonneg (x y : Q) : (0 <= x)%Q -> (0 <= y)%Q -> (0 <= fdiv x y)%Q.
Proof.
  intros Hx Hy. apply to_double_nonneg. unfold Qdiv.
  apply Qmult_le_0_compat; [done|]. by apply Qinv_le_0_compat.
Qed.

Lemma float_of_int_nonneg (n : Z) : (0 <= n)%Z -> (0 <= float_of_int n)%Q.
Proof. intros Hn. apply to_double_nonneg. by apply inject_Z_nonneg. Qed.

Lemma fold_fadd_nonneg (xs : list Q) (a : Q) :
  (0 <= a)%Q -> Forall (fun x => 0 <= x)%Q xs ->
  (0 <= fold_left fadd xs a)%Q.
Proof.
  revert a. induction xs as [|x xs IH]; intros a Ha Hall; [done|].
  inversion Hall; subst. simpl. apply IH; [by apply fadd_nonneg|done].
Qed.

Lemma py_sum_nonneg (xs : list Q) :
  Forall (fun x => 0 <= x)%Q xs -> (0 <= py_sum xs)%Q.
Proof. intros Hall. by apply fold_fadd_nonneg. Qed.


(** *** Agreement with the arithmetic of the processor

    The operations of the model and the binary64 operations of the
    machine, on the same operands; a decimal literal denotes the double
    nearest to it, as in Python. *)

Module Hardware.
Import PrimFloat.

#[warnings="-inexact-float"]
Example to_double_is_nearest_double :
  to_double (1 # 10) = Q_of_float 0.1 /\
  to_double (5 # 1000) = Q_of_float 0.005 /\
  to_double (1 # 3) = Q_of_float (1 / 3) /\
  to_double (-17000000001234 # 10000) = Q_of_float (-1700000000.1234) /\
  to_double (inject_Z (2 ^ 80 + 1)) = Q_of_float 0x1p80 /\
  to_double (1 # 10 ^ 320) = Q_of_float 1e-320 /\
  to_double (Q_of_float 0.1) = Q_of_float 0.1.
Proof. split_and!; by vm_compute. Qed.

#[warnings="-inexact-float"]
Example fadd_is_hardware_addition :
  fadd (Q_of_float 0.1) (Q_of_float 0.2) = Q_of_float (0.1 + 0.2) /\
  fadd (Q_of_float 0.002) (Q_of_float 0.028) = Q_of_float (0.002 + 0.028) /\
  fadd (Q_of_float 1e16) (Q_of_float 1) = Q_of_float (1e16 + 1) /\
  fadd (Q_of_float 0.1) (Q_of_float (-0.1)) = Q_of_float (0.1 + -0.1).
Proof. split_and!; by vm_compute. Qed.

#[warnings="-inexact-float"]
Example fsub_is_hardware_subtraction :
  fsub (Q_of_float 1700000000.9999) (Q_of_float 1700000000.1234)
    = Q_of_float (1700000000.9999 - 1700000000.1234) /\
  fsub (Q_of_float 0.3) (Q_of_float 0.1) = Q_of_float (0.3 - 0.1) /\
  fsub (Q_of_float 1) (Q_of_float 2) = Q_of_float (1 - 2).
Proof. split_and!; by vm_compute. Qed.

#[warnings="-inexact-float"]
Example fdiv_is_hardware_division :
  fdiv (Q_of_float 0.03) (float_of_int 2) = Q_of_float (0.03 / 2) /\
  fdiv (Q_of_float 0.063) (float_of_int 3) = Q_of_float (0.063 / 3) /\
  fdiv (Q_of_float 1) (float_of_int 3) = Q_of_float (1 / 3) /\
  fdiv (Q_of_float 1e-320) (float_of_int 7) = Q_of_float (1e-320 / 7).
Proof. split_and!; by vm_compute. Qed.

(** Values of [round] and [sum] that Python prints: [round(2.675, 2)] is
    the example of the language reference; 0.0625 and 0.03125 are exact
    doubles, the first of them a tie. *)
#[warnings="-inexact-float"]
Example py_round_as_python_prints :
  py_round (Q_of_float 2.675) 2 = Q_of_float 2.67 /\
  py_round (Q_of_float 0.005) 2 = Q_of_float 0.01 /\
  py_round (Q_of_float 0.0625) 3 = Q_of_float 0.062 /\
  py_round (Q_of_float 0.03125) 3 = Q_of_float 0.031 /\
  py_round (Q_of_float 1.5) 0 = Q_of_float 2 /\
  py_round (Q_of_float 2.5) 0 = Q_of_float 2 /\
  py_round (Q_of_float (-0.0375)) 2 = Q_of_float (-0.04).
Proof. split_and!; by vm_compute. Qed.

#[warnings="-inexact-float"]
Example py_sum_as_python_prints :
  py_sum [Q_of_float 0.1; Q_of_float 0.2] = Q_of_float 0.30000000000000004 /\
  py_sum (replicate 10 (Q_of_float 0.005)) = Q_of_float 0.049999999999999996 /\
  py_sum [] = 0%Q.
Proof. split_and!; by vm_compute. Qed.

End Hardware.

(** ** Running the handlers *)

Lemma get_ai_tags_run (env : environ) (review_text : string) (w : world) :
  get_ai_tags env review_text w =
  (Return (get_ai_tags_result env review_text),
   log (get_ai_tags_events env review_text) w).
Proof.
  unfold get_ai_tags, get_ai_tags_result, get_ai_tags_events,
    credential_configured, log, bind, emit, ret.
  destruct (OPENAI_API_KEY env) as [k|]; simpl; [|done].
  destruct (truthy k); simpl; [|done].
  destruct (ChatCompletion_create env (prompt review_text)); simpl;
    by rewrite <- !app_assoc.
Qed.

Lemma bind_Return {A B} (c : M A) (k : A -> M B) (w w' : world) (a : A) :
  c w = (Return a, w') -> bind c k w = k a w'.
Proof. unfold bind. by intros ->. Qed.

Lemma bind_Raise {A B} (c : M A) (k : A -> M B) (w w' : world) (e : exn) :
  c w = (Raise e, w') -> bind c k w = (Raise e, w').
Proof. unfold bind. by intros ->. Qed.

Lemma time_time_run (t : Q) (w : world) :
  time_time t w = (Return t, log [Call_time t] w).
Proof. done. Qed.

Lemma emit_run (ev : event) (w : world) : emit ev w = (Return tt, log [ev] w).
Proof. done. Qed.

Lemma truthy_true (s : string) : truthy s = true <-> s <> "".
Proof. by destruct s. Qed.

Lemma request_json_run (payload : value) (w : world) :
  request_json payload w = (Return payload, w).
Proof. done. Qed.

Lemma analyze_review_ok (env : environ) (t0 t1 : Q)
    (m : gmap string value) (s : string) (w : world) :
  m !! "review_text" = Some (VStr s) ->
  strip s <> "" ->
  let found := get_ai_tags_result env (strip s) in
  let elapsed := py_round (fsub t1 t0) 3 in
  analyze_review env t0 t1 (VDict m) w =
  (Return (analyze_response (strip s) found elapsed),
   {| reviews_db := reviews_db w ++
        [{| text := strip s; tags := found; processing_time := elapsed |}];
      trace := trace w ++ [Call_time t0] ++ get_ai_tags_events env (strip s)
                 ++ [Call_time t1; Print_info elapsed found] |}).
Proof.
  intros Hm Hs found elapsed. unfold analyze_review.
  erewrite bind_Return by apply request_json_run. cbv beta iota.
  rewrite Hm. cbn [default]. unfold id. cbv iota.
  apply truthy_true in Hs. rewrite Hs. cbn [negb].
  erewrite bind_Return by apply time_time_run.
  erewrite bind_Return by apply get_ai_tags_run.
  erewrite bind_Return by apply time_time_run.
  erewrite bind_Return by reflexivity.
  erewrite bind_Return by apply emit_run.
  unfold ret, log, analyze_response. cbn [reviews_db trace].
  by rewrite <- !app_assoc.
Qed.

Lemma analyze_review_missing (env : environ) (t0 t1 : Q)
    (m : gmap string value) (w : world) :
  m !! "review_text" = None \/
  (exists s, m !! "review_text" = Some (VStr s) /\ strip s = "") ->
  analyze_review env t0 t1 (VDict m) w =
  (Return {[ "error" := VStr "Missing review_text" ]}, w).
Proof.
  unfold analyze_review. erewrite bind_Return by apply request_json_run.
  cbv beta iota. intros [-> | (s & -> & Hs)].
  - done.
  - cbn [default]. unfold id. cbv iota. by rewrite Hs.
Qed.

Lemma analyze_review_not_json (env : environ) (t0 t1 : Q) (w : world) :
  analyze_review env t0 t1 Not_json w = (Raise JSONDecodeError, w).
Proof. done. Qed.

(** ** Summary handler *)

Lemma py_div_nonzero (x : Q) (n : Z) (w : world) :
  n <> 0%Z -> py_div x n w = (Return (fdiv x (float_of_int n)), w).
Proof. unfold py_div. intros ->%Z.eqb_neq. done. Qed.

Lemma py_div_zero (x : Q) (w : world) :
  py_div x 0 w = (Raise ZeroDivisionError, w).
Proof. done. Qed.

(** The dict returned on lines 91-95. *)
Lemma get_summary_nonempty (w : world) :
  reviews_db w <> [] ->
  get_summary w =
  (Return
     (<[ "total_reviews" := VInt (Z.of_nat (length (reviews_db w))) ]>
      (<[ "top_tags" :=
            VList (map tag_count_value
                     (top_k_tags (flat_map tags (reviews_db w)) 3)) ]>
       {[ "avg_processing_time" :=
            VFloat (py_round
                      (float_mean (map processing_time (reviews_db w))) 2) ]})),
   w).
Proof.
  intros Hne. unfold get_summary, float_mean. rewrite length_map.
  erewrite bind_Return by reflexivity.
  destruct (reviews_db w) as [|r db] eqn:Hdb; [done|].
  erewrite bind_Return; [reflexivity|].
  apply py_div_nonzero. simpl. lia.
Qed.

Lemma get_summary_empty (w : world) :
  reviews_db w = [] ->
  get_summary w = (Return {[ "message" := VStr "No reviews analyzed yet." ]}, w).
Proof.
  intros Hdb. unfold get_summary.
  erewrite bind_Return by reflexivity. by rewrite Hdb.
Qed.



(** C10. [get_summary] never raises: past the empty-store guard the
    divisor is the positive length of the store, and the division raises
    only for a zero divisor. *)
Theorem summary_division_is_safe (w : world) :
  (exists m : gmap string value, get_summary w = (Return m, w)) /\
  (reviews_db w = [] \/ (0 < Z.of_nat (length (reviews_db w)))%Z) /\
  (forall (x : Q) (n : Z) (e : exn),
     (py_div x n w).1 = Raise e -> n = 0%Z /\ e = ZeroDivisionError).
Proof.
  split_and!.
  - destruct (reviews_db w) as [|r db] eqn:Hdb.
    + eexists. by apply get_summary_empty.
    + eexists. apply get_summary_nonempty. by rewrite Hdb.
  - destruct (reviews_db w); [by left | right; simpl; lia].
  - intros x n e. unfold py_div. destruct (n =? 0)%Z eqn:Hn; [|done].
    apply Z.eqb_eq in Hn. by intros [= <-].
Qed.

(** ** Ingestion handler *)

Lemma classifier_calls_app (evs1 evs2 : list event) :
  classifier_calls (evs1 ++ evs2) = classifier_calls evs1 ++ classifier_calls evs2.
Proof. apply omap_app. Qed.

Lemma classifier_calls_get_ai_tags (env : environ) (review_text : string) :
  classifier_calls (get_ai_tags_events env review_text) = [review_text].
Proof.
  unfold get_ai_tags_events.
  destruct (credential_configured env); [|done].
  by destruct (ChatCompletion_create env (prompt review_text)).
Qed.

Lemma get_ai_tags_result_any_world (env : environ) (review_text : string)
    (w : world) :
  (get_ai_tags env review_text w).1 = Return (get_ai_tags_result env review_text).
Proof. by rewrite get_ai_tags_run. Qed.

Lemma analyze_response_lookup (review_text : string) (found : list string)
    (elapsed : Q) :
  analyze_response review_text found elapsed !! "review_text"
    = Some (VStr review_text) /\
  analyze_response review_text found elapsed !! "tags"
    = Some (VList (map VStr found)) /\
  analyze_response review_text found elapsed !! "processing_time"
    = Some (VFloat elapsed) /\
  analyze_response review_text found elapsed !! "error" = None.
Proof.
  unfold analyze_response. split_and!.
  - by rewrite lookup_insert_eq.
  - by rewrite lookup_insert_ne, lookup_insert_eq.
  - by rewrite !lookup_insert_ne, lookup_singleton_eq.
  - by rewrite !lookup_insert_ne, lookup_singleton_ne.
Qed.

(** C3. A payload whose [review_text] is non-empty after trimming makes
    the handler call the classifier exactly once, append exactly one record
    behind the records already stored, and answer with the three fields of
    that record; submitting the same payload again appends a second record
    of its own. The record holds the classifier's tags and the elapsed
    time rounded to three decimals: the difference of the two clock
    readings, a float, is replaced by the double nearest to a number of
    thousandths that lies within 0.0005 of that difference. *)
Theorem ingestion_appends_one_record
    (env : environ) (t0 t1 : Q) (m : gmap string value) (s : string)
    (w : world) :
  m !! "review_text" = Some (VStr s) ->
  strip s <> "" ->
  exists (found : list string) (elapsed : Q) (thousandths : Z)
         (resp : gmap string value) (w' : world),
    analyze_review env t0 t1 (VDict m) w = (Return resp, w') /\
    (forall w0, (get_ai_tags env (strip s) w0).1 = Return found) /\
    classifier_calls (trace w') = classifier_calls (trace w) ++ [strip s] /\
    elapsed = py_round (fsub t1 t0) 3 /\
    elapsed = to_double (inject_Z thousandths / 1000) /\
    (Qabs (inject_Z thousandths / 1000 - fsub t1 t0) <= 1 # 2000)%Q /\
    reviews_db w' =
      reviews_db w ++
      [{| text := strip s; tags := found; processing_time := elapsed |}] /\
    resp !! "review_text" = Some (VStr (strip s)) /\
    resp !! "tags" = Some (VList (map VStr found)) /\
    resp !! "processing_time" = Some (VFloat elapsed) /\
    forall (env' : environ) (t0' t1' : Q),
      exists found' : list string,
        (forall w0, (get_ai_tags env' (strip s) w0).1 = Return found') /\
        reviews_db (analyze_review env' t0' t1' (VDict m) w').2 =
        reviews_db w ++
        [{| text := strip s; tags := found; processing_time := elapsed |};
         {| text := strip s; tags := found';
            processing_time := py_round (fsub t1' t0') 3 |}].
Proof.
  intros Hm Hs.
  destruct (py_round_decimal (fsub t1 t0) 3) as (k & Hk & Hnear).
  eexists _, (py_round (fsub t1 t0) 3), k, _, _.
  split; [by apply analyze_review_ok|].
  destruct (analyze_response_lookup (strip s) (get_ai_tags_result env (strip s))
              (py_round (fsub t1 t0) 3)) as (Hr1 & Hr2 & Hr3 & _).
  split_and!;
    [ | | done | exact Hk | exact Hnear | done | done | done | done | ].
  - intros w0. apply get_ai_tags_result_any_world.
  - cbn [trace]. rewrite !classifier_calls_app, classifier_calls_get_ai_tags.
    cbn. by rewrite ?app_nil_r.
  - intros env' t0' t1'. eexists.
    split; [intros w0; apply get_ai_tags_result_any_world|].
    rewrite (analyze_review_ok env' t0' t1' m s) by done.
    cbn [snd reviews_db]. by rewrite <- app_assoc.
Qed.

(** C4. A payload without [review_text], or with one that is blank, is
    answered with the missing-field error; nothing else happens: no
    classifier call, no record, the same summary as before. *)
Theorem missing_review_text_rejected
    (env : environ) (t0 t1 : Q) (m : gmap string value) (w : world) :
  m !! "review_text" = None \/
  (exists s, m !! "review_text" = Some (VStr s) /\ strip s = "") ->
  let run := analyze_review env t0 t1 (VDict m) w in
  run.1 = Return {[ "error" := VStr "Missing review_text" ]} /\
  run.2 = w /\
  reviews_db run.2 = reviews_db w /\
  classifier_calls (trace run.2) = classifier_calls (trace w) /\
  (get_summary run.2).1 = (get_summary w).1.
Proof.
  intros H run. subst run. by rewrite analyze_review_missing.
Qed.

Lemma all_tags_snoc (db : list review) (r : review) :
  concat (map tags (db ++ [r])) = concat (map tags db) ++ tags r.
Proof. rewrite map_app, concat_app. cbn. by rewrite app_nil_r. Qed.

Lemma occurrences_app (t : string) (l1 l2 : list string) :
  occurrences t (l1 ++ l2) = occurrences t l1 + occurrences t l2.
Proof. unfold occurrences. by rewrite filter_app, length_app. Qed.

(** C6. The tags of the response are the tags of the stored record, and
    the summary that follows counts exactly these strings. *)
Theorem tags_round_trip
    (env : environ) (t0 t1 : Q) (m : gmap string value) (s : string)
    (w : world) :
  m !! "review_text" = Some (VStr s) ->
  strip s <> "" ->
  exists (found : list string) (resp summary : gmap string value)
         (w' : world),
    (forall w0, (get_ai_tags env (strip s) w0).1 = Return found) /\
    analyze_review env t0 t1 (VDict m) w = (Return resp, w') /\
    resp !! "tags" = Some (VList (map VStr found)) /\
    tags <$> last (reviews_db w') = Some found /\
    get_summary w' = (Return summary, w') /\
    let before := concat (map tags (reviews_db w)) in
    concat (map tags (reviews_db w')) = before ++ found /\
    summary !! "top_tags" =
      Some (VList (map tag_count_value (top_k_tags (before ++ found) 3))) /\
    (forall t, dict_get t 0 (count_tags (before ++ found)) =
               (dict_get t 0 (count_tags before)
                + Z.of_nat (occurrences t found))%Z) /\
    (forall t c, (t, c) ∈ top_k_tags (before ++ found) 3 ->
       c = Z.of_nat (occurrences t before + occurrences t found)).
Proof.
  intros Hm Hs.
  eexists _, _, _, _. split; [intros w0; apply get_ai_tags_result_any_world|].
  split; [by apply analyze_review_ok|].
  split; [apply analyze_response_lookup|].
  split; [cbn [reviews_db]; by rewrite last_snoc|].
  split.
  { apply get_summary_nonempty. cbn [reviews_db]. by destruct (reviews_db w). }
  intros before. cbn [reviews_db]. rewrite all_tags_snoc. cbn [tags].
  split_and!.
  - done.
  - rewrite lookup_insert_ne, lookup_insert_eq by done.
    cbn [reviews_db]. by rewrite flat_map_concat_map, all_tags_snoc.
  - intros t. rewrite !count_tags_get, occurrences_app. lia.
  - intros t c Hin.
    apply top_k_tags_elem_of in Hin as [_ ->]. by rewrite occurrences_app.
Qed.

(** ** Classifier output, record invariant, stored text *)

Lemma slice_to_3_length {A} (l : list A) : length (slice_to 3 l) <= 3.
Proof. rewrite slice_to_nonneg by done. rewrite length_take. lia. Qed.

Lemma mock_tags_cases (review_text : string) :
  mock_tags review_text = ["late_delivery"; "shipping_delay"] \/
  mock_tags review_text = ["defective_item"; "product_failure"] \/
  mock_tags review_text = ["refund_request"; "customer_service"] \/
  mock_tags review_text = ["general_feedback"].
Proof.
  unfold mock_tags.
  destruct (_ || _); [by left|].
  destruct (_ || _); [by right; left|].
  destruct (_ || _); [by right; right; left | by right; right; right].
Qed.

Lemma mock_tags_length (review_text : string) :
  length (mock_tags review_text) <= 3.
Proof.
  destruct (mock_tags_cases review_text) as [-> | [-> | [-> | ->]]]; simpl; lia.
Qed.

Lemma mock_tags_normalised (review_text t : string) :
  t ∈ mock_tags review_text ->
  lower t = t /\ strip t = t /\
  strip_char dquote t = t /\ strip_char squote t = t.
Proof.
  destruct (mock_tags_cases review_text) as [-> | [-> | [-> | ->]]];
    intros Hin;
    repeat (apply elem_of_cons in Hin as [-> | Hin]; [by vm_compute|]);
    by apply elem_of_nil in Hin.
Qed.

Lemma get_ai_tags_result_length (env : environ) (review_text : string) :
  length (get_ai_tags_result env review_text) <= 3.
Proof.
  unfold get_ai_tags_result.
  destruct (credential_configured env); [|apply mock_tags_length].
  destruct (ChatCompletion_create env (prompt review_text));
    [apply slice_to_3_length | apply mock_tags_length].
Qed.

Lemma parse_tags_unfold (ai_output : string) :
  parse_tags ai_output =
  map (fun t => strip_char squote (strip_char dquote (strip t)))
      (filter (fun t => strip t <> "")
         (split "," (remove_char "]" (remove_char "[" ai_output)))).
Proof.
  unfold parse_tags. f_equal. apply list_filter_iff. intros t. apply truthy_true.
Qed.

(** C7 (amended). [get_ai_tags] always returns at most three strings. On
    the fallback path each is lowercase and carries no surrounding blank
    or quote. On the success path the result is the first three of: the
    reply without brackets, cut at commas, the blank pieces dropped, each
    remaining piece trimmed of blanks, then of double quotes, then of
    single quotes; such a tag holds no comma and no bracket, and it is not
    lowercased. *)
Theorem classifier_output_shape
    (env : environ) (review_text : string) (w : world) :
  exists found : list string,
    (get_ai_tags env review_text w).1 = Return found /\
    length found <= 3 /\
    (credential_configured env = false \/
     ChatCompletion_create env (prompt review_text) = Failed ->
     forall t, t ∈ found ->
       lower t = t /\ strip t = t /\
       strip_char dquote t = t /\ strip_char squote t = t) /\
    (forall content : string,
       credential_configured env = true ->
       ChatCompletion_create env (prompt review_text) = Completed content ->
       found =
         take 3
           (map (fun t => strip_char squote (strip_char dquote (strip t)))
              (filter (fun t => strip t <> "")
                 (split ","
                    (remove_char "]" (remove_char "[" (strip content)))))) /\
       forall t, t ∈ found ->
         has_char "," t = false /\ has_char "[" t = false /\
         has_char "]" t = false).
Proof.
  exists (get_ai_tags_result env review_text).
  split; [apply get_ai_tags_result_any_world|].
  split; [apply get_ai_tags_result_length|].
  split.
  - intros Hfb t. pose proof (get_ai_tags_fallback env review_text w Hfb) as H.
    rewrite get_ai_tags_result_any_world in H. injection H as ->.
    apply mock_tags_normalised.
  - intros content Hcred Hcall. unfold get_ai_tags_result.
    rewrite Hcred, Hcall. split.
    + by rewrite slice_to_nonneg, parse_tags_unfold.
    + intros t Hin. apply (parse_tags_no_separators (strip content)).
      by apply (sublist_subseteq _ _ (slice_to_sublist 3 _)).
Qed.

(** C7, as stated, fails on the success path: the reply
    ["Late", " padded ", ""] yields a tag with a capital, a tag with
    surrounding blanks and an empty tag. *)
Lemma success_path_tags_not_normalised :
  let reply :=
    "[" +:+ quoted "Late" +:+ ", " +:+ quoted " padded " +:+ ", "
        +:+ quoted "" +:+ "]" in
  (get_ai_tags (replying reply) "fine" initial_world).1
    = Return ["Late"; " padded "; ""] /\
  lower "Late" <> "Late" /\
  strip " padded " <> " padded ".
Proof. by vm_compute. Qed.

Lemma get_summary_world (w : world) : (get_summary w).2 = w.
Proof.
  destruct (reviews_db w) as [|r db] eqn:Hdb.
  - by rewrite get_summary_empty.
  - rewrite get_summary_nonempty; [done | by rewrite Hdb].
Qed.

Lemma analyze_review_db (env : environ) (t0 t1 : Q) (body : request_body)
    (w : world) :
  reviews_db (analyze_review env t0 t1 body w).2 = reviews_db w \/
  exists s : string,
    reviews_db (analyze_review env t0 t1 body w).2 =
    reviews_db w ++
    [{| text := strip s; tags := get_ai_tags_result env (strip s);
        processing_time := py_round (fsub t1 t0) 3 |}].
Proof.
  destruct body as [payload|]; [|by left].
  destruct payload as [| | | | | | |m]; try (by left).
  destruct (m !! "review_text") as [v|] eqn:Hm.
  - destruct v as [| | | |s| | |];
      try (left; unfold analyze_review;
           erewrite bind_Return by apply request_json_run;
           cbv beta iota; by rewrite Hm).
    destruct (decide (strip s = "")) as [Hs|Hs].
    + left. rewrite analyze_review_missing; [done|]. right. by exists s.
    + right. exists s. by rewrite (analyze_review_ok env t0 t1 m s).
  - left. rewrite analyze_review_missing; [done | by left].
Qed.

Lemma reachable_records (clock_ok : Q -> Q -> Prop) (w : world) :
  reachable clock_ok w ->
  Forall (fun r => length (tags r) <= 3 /\
                   exists t0 t1, clock_ok t0 t1 /\
                                 processing_time r = py_round (fsub t1 t0) 3)
         (reviews_db w).
Proof.
  induction 1 as [|w env t0 t1 body _ IH Hclock|w _ IH].
  - constructor.
  - destruct (analyze_review_db env t0 t1 body w) as [-> | [s ->]]; [done|].
    apply Forall_app. split; [done|]. constructor; [|constructor].
    cbn. split; [apply get_ai_tags_result_length | by exists t0, t1].
  - by rewrite get_summary_world.
Qed.

(** C8 (amended). Every record of every reachable store has at most three
    tags, whatever the clock does; its processing time is non-negative as
    long as no ingestion saw the clock go backwards between its two
    readings. Ingestion and summary are the steps of [reachable]. *)
Theorem record_invariant_reachable (w : world) :
  (reachable any_clock w ->
     Forall (fun r => length (tags r) <= 3) (reviews_db w)) /\
  (reachable forward_clock w -> Forall record_invariant (reviews_db w)).
Proof.
  split; intros Hr; apply reachable_records in Hr;
    (eapply Forall_impl; [exact Hr|]); cbn.
  - by intros r [? _].
  - intros r (Hlen & t0 & t1 & Hclock & Hpt). split; [done|].
    rewrite Hpt. by apply py_round_nonneg, fsub_nonneg.
Qed.

(** C8, as stated, fails: when the clock is set back by one second during
    the classification, the stored processing time is -1. *)
Lemma negative_processing_time_reachable :
  exists (w : world) (r : review),
    reachable any_clock w /\ reviews_db w = [r] /\
    length (tags r) <= 3 /\ (processing_time r < 0)%Q.
Proof.
  exists (analyze_review no_credential 2 1 (request "slow") initial_world).2.
  eexists. split; [by apply reach_analyze; [constructor|]|].
  split; [by vm_compute|]. split; [cbn; lia | by vm_compute].
Qed.

(** C9 (amended). The stored text is the submitted string without its
    leading and trailing blanks; it is the submitted string itself exactly
    when that string neither starts nor ends with a blank. *)
Theorem stored_text_is_trimmed
    (env : environ) (t0 t1 : Q) (m : gmap string value) (s : string)
    (w : world) :
  m !! "review_text" = Some (VStr s) ->
  strip s <> "" ->
  exists r : review,
    reviews_db (analyze_review env t0 t1 (VDict m) w).2 = reviews_db w ++ [r] /\
    text r = strip s /\
    (exists pre post : string,
       s = pre +:+ text r +:+ post /\
       all_chars is_space pre = true /\ all_chars is_space post = true /\
       (forall c, first_char (text r) = Some c -> is_space c = false) /\
       (forall c, last_char (text r) = Some c -> is_space c = false)) /\
    (text r = s <->
       (forall c, first_char s = Some c -> is_space c = false) /\
       (forall c, last_char s = Some c -> is_space c = false)).
Proof.
  intros Hm Hs. eexists. rewrite (analyze_review_ok env t0 t1 m s) by done.
  split; [done|]. split; [done|]. split; [apply strip_spec|].
  apply strip_fixed.
Qed.

(** C9, as stated, fails: the blanks around the submitted text are not
    stored. *)
Lemma stored_text_differs_from_submitted :
  exists r : review,
    reviews_db
      (analyze_review no_credential 0 0 (request "  great  ") initial_world).2
      = [r] /\
    text r = "great" /\ text r <> "  great  ".
Proof. eexists. by vm_compute. Qed.

(** ** Worked instances *)

(** The spec's example for the rule order, through C1. *)
Lemma fallback_rules_witness :
  credential_configured no_credential = false /\
  (get_ai_tags no_credential "The item arrived late and broken"
     initial_world).1
  = Return ["late_delivery"; "shipping_delay"].
Proof.
  split; [reflexivity|].
  destruct (fallback_rules_in_priority_order no_credential
              "The item arrived late and broken" initial_world)
    as (found & Hrun & _ & _ & _ & _ & Hboth & _).
  { left. reflexivity. }
  rewrite Hrun. f_equal.
  apply Hboth; apply contains_spec; reflexivity.
Defined.

(** Six tags, k = 3: "a" and "c" tie at 2 and keep their input order. *)
Lemma top_k_tags_witness :
  (0 <= 3)%Z /\
  top_k_tags ["b"; "a"; "c"; "a"; "c"; "d"] 3
    = [("a", 2%Z); ("c", 2%Z); ("b", 1%Z)] /\
  first_index "a" ["b"; "a"; "c"; "a"; "c"; "d"]
    < first_index "c" ["b"; "a"; "c"; "a"; "c"; "d"].
Proof.
  split; [lia|]. split; [reflexivity|].
  destruct (top_k_tags_spec ["b"; "a"; "c"; "a"; "c"; "d"] 3)
    as (_ & _ & _ & _ & Horder); [lia|].
  apply (Horder 0 1 "a" "c" 2%Z); [lia | reflexivity | reflexivity].
Defined.

(** One ingestion into the empty store, through C3: the clock advances
    by 1/32 s, that is 0.03125 s, and the record holds 0.031. *)
Lemma ingestion_witness :
  strip " arrived late " <> "" /\
  exists elapsed : Q,
    reviews_db
      (analyze_review no_credential 10 (321 # 32) (request " arrived late ")
         initial_world).2
    = [{| text := "arrived late";
          tags := ["late_delivery"; "shipping_delay"];
          processing_time := elapsed |}] /\
    elapsed = to_double (31 # 1000) /\
    (elapsed < (321 # 32) - 10)%Q.
Proof.
  split; [by vm_compute|].
  destruct (ingestion_appends_one_record no_credential 10 (321 # 32)
              {[ "review_text" := VStr " arrived late " ]} " arrived late "
              initial_world)
    as (found & elapsed & k & resp & w' & Hrun & Hcls & _ & Hel & _ & _
        & Hdb & _).
  { apply lookup_singleton_eq. }
  { by vm_compute. }
  exists elapsed. unfold request. rewrite Hrun. cbn [snd]. rewrite Hdb.
  specialize (Hcls initial_world). injection Hcls as <-.
  split; [reflexivity|]. rewrite Hel. split; by vm_compute.
Defined.

(** A blank review text, through C4. *)
Lemma missing_review_text_witness :
  strip "   " = "" /\
  analyze_review no_credential 0 0 (request "   ") initial_world
  = (Return {[ "error" := VStr "Missing review_text" ]}, initial_world).
Proof.
  split; [reflexivity|].
  destruct (missing_review_text_rejected no_credential 0 0
              {[ "review_text" := VStr "   " ]} initial_world)
    as (Hresp & Hworld & _).
  { right. exists "   ". split; [apply lookup_singleton_eq | reflexivity]. }
  unfold request.
  destruct (analyze_review no_credential 0 0 _ initial_world) as [o w'].
  cbn [fst snd] in Hresp, Hworld. by rewrite Hresp, Hworld.
Defined.

(** A review whose tags show up in the next summary, through C6. *)
Lemma tags_round_trip_witness :
  strip "item broken" <> "" /\
  exists (resp summary : gmap string value) (w' : world),
    analyze_review no_credential 0 0 (request "item broken") initial_world
      = (Return resp, w') /\
    resp !! "tags"
      = Some (VList [VStr "defective_item"; VStr "product_failure"]) /\
    get_summary w' = (Return summary, w') /\
    summary !! "top_tags"
      = Some (VList [VTuple [VStr "defective_item"; VInt 1];
                     VTuple [VStr "product_failure"; VInt 1]]).
Proof.
  split; [by vm_compute|].
  destruct (tags_round_trip no_credential 0 0
              {[ "review_text" := VStr "item broken" ]} "item broken"
              initial_world)
    as (found & resp & summary & w' & Hcls & Hrun & Htags & _ & Hsum & _
        & Htop & _).
  { apply lookup_singleton_eq. }
  { by vm_compute. }
  specialize (Hcls initial_world). injection Hcls as <-.
  exists resp, summary, w'. split; [exact Hrun|]. split; [exact Htags|].
  split; [exact Hsum|]. rewrite Htop. reflexivity.
Defined.

(** A padded review text, through C9. *)
Lemma stored_text_witness :
  strip "  great  " <> "" /\
  exists r : review,
    reviews_db
      (analyze_review no_credential 0 0 (request "  great  ") initial_world).2
      = [r] /\
    text r = "great".
Proof.
  split; [by vm_compute|].
  destruct (stored_text_is_trimmed no_credential 0 0
              {[ "review_text" := VStr "  great  " ]} "  great  "
              initial_world)
    as (r & Hdb & Htext & _).
  { apply lookup_singleton_eq. }
  { by vm_compute. }
  exists r. split; [exact Hdb | by rewrite Htext].
Defined.


(** A reply with four entries in mixed quoting, through C7. *)
Lemma classifier_output_witness :
  let reply :=
    "[late, 'big box', " +:+ quoted "damaged" +:+ ", extra]" in
  (get_ai_tags (replying reply) "fine" initial_world).1
  = Return ["late"; "big box"; "damaged"].
Proof.
  intros reply.
  destruct (classifier_output_shape (replying reply) "fine" initial_world)
    as (found & Hrun & _ & _ & Hsuccess).
  destruct (Hsuccess reply eq_refl eq_refl) as [Hfound _].
  rewrite Hrun, Hfound. reflexivity.
Defined.

(** A state reached with a clock that moves forward, through C8. *)
Lemma record_invariant_witness :
  let w :=
    (analyze_review no_credential 10 (21 # 2) (request " arrived late ")
       initial_world).2 in
  reachable forward_clock w /\
  length (reviews_db w) = 1 /\
  Forall record_invariant (reviews_db w).
Proof.
  intros w.
  assert (reachable forward_clock w) as Hreach.
  { apply reach_analyze; [constructor|]. unfold forward_clock, Qle. simpl. lia. }
  split; [exact Hreach|]. split; [reflexivity|].
  by apply record_invariant_reachable.
Defined.

(** The tag "d" is left out of the top three and is no more frequent than
    any tag returned. *)
Lemma top_k_tags_omitted_witness :
  (0 <= 3)%Z /\
  "d" ∈ ["b"; "a"; "c"; "a"; "c"; "d"] /\
  Z.of_nat (length (top_k_tags ["b"; "a"; "c"; "a"; "c"; "d"] 3)) = 3%Z /\
  (Z.of_nat (occurrences "d" ["b"; "a"; "c"; "a"; "c"; "d"]) <= 1)%Z.
Proof.
  assert ("d" ∈ ["b"; "a"; "c"; "a"; "c"; "d"]) as Hin
    by repeat constructor.
  destruct (top_k_tags_omitted ["b"; "a"; "c"; "a"; "c"; "d"] 3 "d")
    as [Hlen Hle]; [lia | exact Hin | |].
  { intros Hout. vm_compute in Hout.
    repeat (apply elem_of_cons in Hout as [Hout | Hout]; [discriminate|]).
    by apply elem_of_nil in Hout. }
  split; [lia|]. split; [exact Hin|]. split; [exact Hlen|].
  apply (Hle "b"). vm_compute. repeat constructor.
Defined.

(** * Further properties *)

(** ** The ranking for any [k] *)

Lemma sum_counts_dict_set (k : string) (v : Z) (d : freq_dict) :
  sum_counts (dict_set k v d) = (sum_counts d - dict_get k 0 d + v)%Z.
Proof.
  unfold sum_counts.
  induction d as [|[k0 v0] d IH]; cbn [dict_set dict_get].
  - cbn. lia.
  - destruct (decide (k0 = k)); cbn [foldr snd] in *; lia.
Qed.

Lemma sum_counts_count_tags (tag_list : list string) :
  sum_counts (count_tags tag_list) = Z.of_nat (length tag_list).
Proof.
  induction tag_list as [|t l IH] using rev_ind; [done|].
  rewrite count_tags_snoc, sum_counts_dict_set, IH, length_app. simpl. lia.
Qed.

Lemma sum_counts_Permutation (d1 d2 : list (string * Z)) :
  d1 ≡ₚ d2 -> sum_counts d1 = sum_counts d2.
Proof.
  unfold sum_counts. induction 1; cbn [foldr] in *; lia.
Qed.

Lemma count_tags_length (tag_list : list string) :
  length (count_tags tag_list) = length (remove_dups tag_list).
Proof.
  rewrite <- (length_fmap fst). apply Permutation_length, NoDup_Permutation.
  - apply count_tags_keys_NoDup.
  - apply NoDup_remove_dups.
  - intros t. by rewrite count_tags_keys_elem_of, elem_of_remove_dups.
Qed.

Lemma remove_dups_length_le (l : list string) :
  length (remove_dups l) <= length l.
Proof.
  apply submseteq_length, NoDup_submseteq; [apply NoDup_remove_dups|].
  intros t. by rewrite elem_of_remove_dups.
Qed.

Lemma sorted_reverse_length {A} (key : A -> Z) (l : list A) :
  length (sorted_reverse key l) = length l.
Proof. apply Permutation_length, sorted_reverse_Permutation. Qed.

Lemma top_k_tags_full (tag_list : list string) (k : Z) :
  (Z.of_nat (length (remove_dups tag_list)) <= k)%Z ->
  top_k_tags tag_list k = sorted_reverse snd (count_tags tag_list).
Proof.
  intros Hk. unfold top_k_tags. rewrite slice_to_nonneg by lia.
  apply take_ge. rewrite sorted_reverse_length, count_tags_length. lia.
Qed.

(** X2. With [k] at least the number of distinct tags nothing is cut off: every
    tag of the input is ranked, once, and the counts add up to the number of
    tags given. *)
Theorem top_k_tags_all (tag_list : list string) (k : Z) :
  (Z.of_nat (length (remove_dups tag_list)) <= k)%Z ->
  let out := top_k_tags tag_list k in
  (forall t, t ∈ out.*1 <-> t ∈ tag_list) /\
  length out = length (remove_dups tag_list) /\
  sum_counts out = Z.of_nat (length tag_list).
Proof.
  intros Hk out. subst out. rewrite top_k_tags_full by done.
  pose proof (sorted_reverse_Permutation snd (count_tags tag_list)) as Hp.
  split_and!.
  - intros t. by rewrite Hp, count_tags_keys_elem_of.
  - by rewrite sorted_reverse_length, count_tags_length.
  - by rewrite (sum_counts_Permutation _ _ Hp), sum_counts_count_tags.
Qed.

(** X3. Whatever the sign of [k], the result is a prefix of the full ranking:
    its first [k] entries for [k >= 0], and all but its last [-k] entries
    for [k < 0] (Python's slice), never an error. *)
Theorem top_k_tags_any_k (tag_list : list string) (k : Z) :
  let full := top_k_tags tag_list (Z.of_nat (length tag_list)) in
  let out := top_k_tags tag_list k in
  let d := Z.of_nat (length (remove_dups tag_list)) in
  Z.of_nat (length full) = d /\
  out `prefix_of` full /\
  Z.of_nat (length out) = (if (0 <=? k)%Z then Z.min k d else Z.max 0 (d + k))%Z.
Proof.
  intros full out d. subst full out d.
  pose proof (remove_dups_length_le tag_list) as Hle.
  rewrite (top_k_tags_full tag_list (Z.of_nat (length tag_list))) by lia.
  unfold top_k_tags, slice_to.
  set (sorted := sorted_reverse snd (count_tags tag_list)).
  assert (length sorted = length (remove_dups tag_list)) as Hlen.
  { subst sorted. by rewrite sorted_reverse_length, count_tags_length. }
  split; [by rewrite Hlen|].
  destruct (0 <=? k)%Z eqn:Hk.
  - split; [apply prefix_take|]. rewrite length_take, Hlen. lia.
  - split; [apply prefix_take|]. rewrite length_take, Hlen. lia.
Qed.

(** ** Malformed payloads and the append-only store *)

Lemma analyze_review_not_dict (env : environ) (t0 t1 : Q) (payload : value)
    (w : world) :
  (forall m, payload <> VDict m) ->
  analyze_review env t0 t1 payload w = (Raise AttributeError, w).
Proof. destruct payload; try done. intros H. by destruct (H m). Qed.

Lemma analyze_review_not_str (env : environ) (t0 t1 : Q)
    (m : gmap string value) (v : value) (w : world) :
  m !! "review_text" = Some v ->
  (forall s, v <> VStr s) ->
  analyze_review env t0 t1 (VDict m) w = (Raise AttributeError, w).
Proof.
  intros Hm Hv. unfold analyze_review.
  erewrite bind_Return by apply request_json_run. cbv beta iota.
  rewrite Hm. cbn [default]. unfold id.
  destruct v; try done. by destruct (Hv s).
Qed.

Lemma well_formed_dec (payload : value) :
  well_formed payload \/
  (forall m, payload <> VDict m) \/
  (exists m v, payload = VDict m /\ m !! "review_text" = Some v /\
               forall s, v <> VStr s).
Proof.
  destruct payload as [| | | | | | |m];
    try (right; left; intros m' H; discriminate H).
  destruct (m !! "review_text") as [v|] eqn:Hm.
  - destruct v as [| | | |s| | |];
      try (right; right; exists m; eexists; split; [done|];
           split; [exact Hm|]; intros s' H; discriminate H).
    left. exists m. split; [done|]. right. by exists s.
  - left. exists m. split; [done|]. by left.
Qed.


Lemma analyze_review_extends (env : environ) (t0 t1 : Q) (body : request_body)
    (w : world) :
  reviews_db w `prefix_of` reviews_db (analyze_review env t0 t1 body w).2 /\
  trace w `prefix_of` trace (analyze_review env t0 t1 body w).2.
Proof.
  destruct body as [payload|]; [|by rewrite analyze_review_not_json].
  destruct (well_formed_dec payload) as [Hwf | Hbad].
  - destruct Hwf as (m & -> & [Hm | [s Hm]]).
    + rewrite analyze_review_missing by (by left). done.
    + destruct (decide (strip s = "")) as [Hs|Hs].
      * rewrite analyze_review_missing by (right; by exists s). done.
      * rewrite (analyze_review_ok env t0 t1 m s) by done. cbn [snd reviews_db trace].
        split; eexists; reflexivity.
  - destruct Hbad as [Hnd | (m & v & -> & Hm & Hv)].
    + by rewrite analyze_review_not_dict.
    + by rewrite (analyze_review_not_str env t0 t1 m v).
Qed.

(** X5. The store and the log are append-only: whatever calls are served, in
    whatever order and with whatever outcome, the records stored before are
    still there, unchanged and in place, followed by the new ones. *)
Theorem serve_append_only (cs : list call) (w : world) :
  reviews_db w `prefix_of` reviews_db (serve cs w) /\
  trace w `prefix_of` trace (serve cs w).
Proof.
  revert w. induction cs as [|c cs IH]; intros w; cbn [serve]; [done|].
  destruct (IH (handle c w).2) as [Hdb Htr].
  assert (reviews_db w `prefix_of` reviews_db (handle c w).2 /\
          trace w `prefix_of` trace (handle c w).2) as [Hdb1 Htr1].
  { destruct c as [env t0 t1 payload|]; cbn [handle].
    - apply analyze_review_extends.
    - by rewrite get_summary_world. }
  split; by etrans.
Qed.

(** ** Bookkeeping, averages, top tags, external calls *)

Lemma analyze_review_outcomes (env : environ) (t0 t1 : Q) (body : request_body)
    (w : world) :
  (analyze_review env t0 t1 body w).2 = w \/
  exists (m : gmap string value) (s : string),
    body = VDict m /\ m !! "review_text" = Some (VStr s) /\ strip s <> "".
Proof.
  destruct body as [payload|]; [|by left].
  destruct (well_formed_dec payload) as [Hwf | Hbad].
  - destruct Hwf as (m & -> & [Hm | [s Hm]]).
    + left. rewrite analyze_review_missing by (by left). done.
    + destruct (decide (strip s = "")) as [Hs|Hs].
      * left. rewrite analyze_review_missing by (right; by exists s). done.
      * right. by exists m, s.
  - left. destruct Hbad as [Hnd | (m & v & -> & Hm & Hv)].
    + by rewrite analyze_review_not_dict.
    + by rewrite (analyze_review_not_str env t0 t1 m v).
Qed.

(** X6. In every reachable state the stored reviews are, one for one and in
    order, the texts the classifier was called with: a request is
    classified if and only if it is stored. *)
Theorem store_matches_classifier_calls (w : world) :
  reachable any_clock w ->
  map text (reviews_db w) = classifier_calls (trace w) /\
  length (reviews_db w) = length (classifier_calls (trace w)).
Proof.
  intros Hr.
  assert (map text (reviews_db w) = classifier_calls (trace w)) as H.
  { induction Hr as [|w env t0 t1 payload _ IH _|w _ IH].
    - done.
    - destruct (analyze_review_outcomes env t0 t1 payload w)
        as [-> | (m & s & -> & Hm & Hs)]; [done|].
      rewrite (analyze_review_ok env t0 t1 m s) by done.
      cbn [snd reviews_db trace].
      rewrite map_app, !classifier_calls_app, classifier_calls_get_ai_tags, IH.
      cbn. by rewrite ?app_nil_r.
    - by rewrite get_summary_world. }
  split; [done|]. by rewrite <- H, length_map.
Qed.

(** X7. On a non-empty store whose processing times are all non-negative,
    the reported average is non-negative: no rounding step of the sum, of
    the division or of [round] takes a result below zero. *)
Theorem summary_average_nonneg (w : world) :
  reviews_db w <> [] ->
  Forall (fun r => 0 <= processing_time r)%Q (reviews_db w) ->
  exists (m : gmap string value) (avg : Q),
    get_summary w = (Return m, w) /\
    m !! "avg_processing_time" = Some (VFloat avg) /\
    (0 <= avg)%Q.
Proof.
  intros Hne Hall. eexists _, _.
  split; [by apply get_summary_nonempty|].
  split; [by rewrite !lookup_insert_ne, lookup_singleton_eq|].
  apply py_round_nonneg, fdiv_nonneg.
  - apply py_sum_nonneg, Forall_fmap.
    eapply Forall_impl; [exact Hall|]. done.
  - apply float_of_int_nonneg. lia.
Qed.

(** The reported average need not lie between the smallest and the
    largest stored time: a single time 0.005 is reported as 0.01, ten
    times 0.005 as 0.0. *)
Remark summary_average_leaves_range :
  let t := to_double (5 # 1000) in
  py_round (float_mean [t]) 2 = to_double (1 # 100) /\
  py_round (float_mean (replicate 10 t)) 2 = 0%Q /\
  (0 < t < to_double (1 # 100))%Q.
Proof. split_and!; by vm_compute. Qed.

Lemma occurrences_pos (t : string) (l : list string) :
  t ∈ l -> 1 <= occurrences t l.
Proof.
  unfold occurrences. intros Hin.
  assert (t ∈ filter (fun x => x = t) l) as Hf by (by apply list_elem_of_filter).
  destruct (filter _ l); [by apply elem_of_nil in Hf | simpl; lia].
Qed.

Lemma occurrences_le (t : string) (l : list string) :
  occurrences t l <= length l.
Proof. apply length_filter. Qed.

(** X8. The [top_tags] of a summary: at most three pairs; each names a tag of
    some stored review together with the number of times the tag is stored,
    a number between 1 and the number of stored tags. *)
Theorem summary_top_tags_sound (w : world) :
  reviews_db w <> [] ->
  exists (m : gmap string value) (top : list (string * Z)),
    get_summary w = (Return m, w) /\
    m !! "top_tags" = Some (VList (map tag_count_value top)) /\
    length top <= 3 /\
    forall t c, (t, c) ∈ top ->
      (exists r, r ∈ reviews_db w /\ t ∈ tags r) /\
      c = Z.of_nat (occurrences t (concat (map tags (reviews_db w)))) /\
      (1 <= c <= Z.of_nat (length (concat (map tags (reviews_db w)))))%Z.
Proof.
  intros Hne. eexists _, _.
  split; [by apply get_summary_nonempty|].
  split; [by rewrite lookup_insert_ne, lookup_insert_eq|].
  rewrite flat_map_concat_map.
  split.
  - unfold top_k_tags. rewrite slice_to_nonneg, length_take by done. lia.
  - intros t c [Hin ->]%top_k_tags_elem_of.
    pose proof (occurrences_pos _ _ Hin) as Hpos.
    pose proof (occurrences_le t (concat (map tags (reviews_db w)))) as Hle.
    split_and!; [|done|lia|lia].
    apply list_elem_of_In, in_concat in Hin as (ts & Hts & Hin).
    apply in_map_iff in Hts as (r & <- & Hr).
    exists r. by rewrite !list_elem_of_In.
Qed.

Lemma external_calls_app (evs1 evs2 : list event) :
  external_calls (evs1 ++ evs2) = external_calls evs1 ++ external_calls evs2.
Proof. apply omap_app. Qed.

Lemma append_assoc (a b c : string) : (a +:+ b) +:+ c = a +:+ (b +:+ c).
Proof.
  induction a as [|x a IH]; [done|]. by rewrite !append_String, IH.
Qed.

Lemma quoted_inside (a b c d t : string) :
  a +:+ b +:+ String dquote t +:+ String dquote c +:+ d
  = (a +:+ b) +:+ quoted t +:+ (c +:+ d).
Proof.
  unfold quoted. rewrite append_assoc. do 2 f_equal.
  by rewrite !append_String, append_assoc.
Qed.

Lemma occurs_in_prompt (review_text : string) :
  occurs_in (quoted review_text) (prompt review_text).
Proof. unfold occurs_in, prompt. eexists _, _. apply quoted_inside. Qed.

(** X9. One classification sends at most one prompt to the completion
    service: exactly one, holding the review between double quotes, when a
    credential is set, none otherwise; the store is not touched. *)
Theorem get_ai_tags_external_calls (env : environ) (review_text : string)
    (w : world) :
  let w' := (get_ai_tags env review_text w).2 in
  external_calls (trace w') =
    external_calls (trace w) ++
    (if credential_configured env then [prompt review_text] else []) /\
  occurs_in (quoted review_text) (prompt review_text) /\
  reviews_db w' = reviews_db w.
Proof.
  intros w'. subst w'. rewrite get_ai_tags_run. cbn [snd log trace reviews_db].
  split; [|split; [apply occurs_in_prompt | done]].
  rewrite external_calls_app. f_equal. unfold get_ai_tags_events.
  destruct (credential_configured env); [|done].
  by destruct (ChatCompletion_create env (prompt review_text)).
Qed.

(** ** Reading back a well-formed reply *)

Lemma append_nil_r (a : string) : a +:+ "" = a.
Proof. induction a as [|x a IH]; [done|]. by rewrite append_String, IH. Qed.

Lemma has_char_append (c : ascii) (a b : string) :
  has_char c (a +:+ b) = has_char c a || has_char c b.
Proof.
  induction a as [|x a IH]; [done|].
  rewrite append_String. cbn [has_char]. by rewrite IH, orb_assoc.
Qed.

Lemma remove_char_append (c : ascii) (a b : string) :
  remove_char c (a +:+ b) = remove_char c a +:+ remove_char c b.
Proof.
  induction a as [|x a IH]; [done|].
  rewrite append_String. cbn [remove_char]. rewrite IH.
  by destruct (Ascii.eqb x c).
Qed.

Lemma remove_char_absent (c : ascii) (s : string) :
  has_char c s = false -> remove_char c s = s.
Proof.
  induction s as [|x s IH]; [done|]. cbn [has_char remove_char].
  intros [Hx Hs]%orb_false_iff. by rewrite Hx, IH.
Qed.

Lemma split_absent (c : ascii) (s : string) :
  has_char c s = false -> split c s = [s].
Proof.
  induction s as [|x s IH]; [done|]. cbn [has_char split].
  intros [Hx Hs]%orb_false_iff. by rewrite Hx, IH.
Qed.

Lemma split_at_sep (c : ascii) (a b : string) :
  has_char c a = false -> split c (a +:+ String c b) = a :: split c b.
Proof.
  induction a as [|x a IH].
  - intros _. rewrite append_Empty. cbn [split]. by rewrite Ascii.eqb_refl.
  - cbn [has_char]. intros [Hx Ha]%orb_false_iff.
    rewrite append_String. cbn [split]. by rewrite Hx, IH.
Qed.

Lemma has_char_quoted (c : ascii) (t : string) :
  has_char c (quoted t) = Ascii.eqb dquote c || has_char c t.
Proof.
  unfold quoted. cbn [has_char]. rewrite has_char_append. cbn [has_char].
  rewrite orb_false_r. by destruct (Ascii.eqb dquote c), (has_char c t).
Qed.

Lemma has_char_tag_items (c : ascii) (ts : list string) :
  Ascii.eqb dquote c = false -> Ascii.eqb "," c = false ->
  Ascii.eqb " " c = false ->
  Forall (fun t => has_char c t = false) ts ->
  has_char c (tag_items ts) = false.
Proof.
  intros Hq Hc Hs. induction 1 as [|t ts Ht Hts IH]; [done|].
  cbn [tag_items]. destruct ts as [|u ts].
  - by rewrite has_char_quoted, Hq, Ht.
  - rewrite !has_char_append, has_char_quoted, Hq, Ht, IH.
    cbn [has_char]. by rewrite Hc, Hs.
Qed.

Lemma split_tag_items (pre t : string) (ts : list string) :
  has_char "," pre = false ->
  Forall (fun u => has_char "," u = false) (t :: ts) ->
  split "," (pre +:+ tag_items (t :: ts)) =
  (pre +:+ quoted t) :: map (fun u => " " +:+ quoted u) ts.
Proof.
  revert pre t. induction ts as [|u ts IH]; intros pre t Hpre Hall.
  - cbn [tag_items map]. apply split_absent.
    apply Forall_cons in Hall as [Ht _].
    by rewrite has_char_append, has_char_quoted, Hpre, Ht.
  - apply Forall_cons in Hall as [Ht Hall].
    change (tag_items (t :: u :: ts))
      with (quoted t +:+ String "," (" " +:+ tag_items (u :: ts))).
    rewrite <- append_assoc, split_at_sep.
    + by rewrite (IH " " u).
    + by rewrite has_char_append, has_char_quoted, Hpre, Ht.
Qed.

Lemma last_char_snoc (s : string) (c : ascii) :
  last_char (s +:+ String c "") = Some c.
Proof.
  induction s as [|x s IH]; [done|]. rewrite append_String.
  cbn [last_char]. rewrite IH. by destruct (s +:+ String c "").
Qed.

Lemma rstrip_snoc (p : ascii -> bool) (s : string) (c : ascii) :
  p c = true -> rstrip p (s +:+ String c "") = rstrip p s.
Proof.
  intros Hc. induction s as [|x s IH].
  - rewrite append_Empty. cbn [rstrip]. by rewrite Hc.
  - rewrite append_String. cbn [rstrip]. by rewrite IH.
Qed.

Lemma first_char_absent (c x : ascii) (s : string) :
  has_char c s = false -> first_char s = Some x -> Ascii.eqb c x = false.
Proof.
  destruct s as [|y s]; [done|]. cbn [has_char first_char].
  intros [Hy _]%orb_false_iff [= <-]. by rewrite Ascii.eqb_sym.
Qed.

Lemma last_char_absent (c x : ascii) (s : string) :
  has_char c s = false -> last_char s = Some x -> Ascii.eqb c x = false.
Proof.
  induction s as [|y s IH]; [done|]. cbn [has_char].
  intros [Hy Hs]%orb_false_iff. destruct s as [|z s].
  - cbn. intros [= <-]. by rewrite Ascii.eqb_sym.
  - intros Hl. by apply IH.
Qed.

Lemma strip_quoted (t : string) : strip (quoted t) = quoted t.
Proof.
  apply strip_fixed. unfold quoted. split.
  - by intros c [= <-].
  - change (String dquote (t +:+ String dquote ""))
      with (String dquote t +:+ String dquote "").
    rewrite last_char_snoc. by intros c [= <-].
Qed.

Lemma strip_space_quoted (t : string) : strip (" " +:+ quoted t) = quoted t.
Proof. exact (strip_quoted t). Qed.

Lemma strip_char_dquote_quoted (t : string) :
  has_char dquote t = false -> strip_char dquote (quoted t) = t.
Proof.
  intros Ht. unfold strip_char, quoted. cbn [lstrip].
  change (Ascii.eqb dquote dquote) with true. cbv iota.
  destruct t as [|x t].
  - done.
  - rewrite append_String. cbn [lstrip].
    rewrite (first_char_absent dquote x (String x t)) by done.
    rewrite <- append_String, rstrip_snoc by apply Ascii.eqb_refl.
    apply rstrip_fixed. intros c. by apply last_char_absent.
Qed.

Lemma strip_char_squote_plain (t : string) :
  first_char t <> Some squote -> last_char t <> Some squote ->
  strip_char squote t = t.
Proof.
  intros Hf Hl. unfold strip_char.
  rewrite lstrip_fixed, rstrip_fixed; [done| |].
  - intros c Hc. apply not_true_is_false. intros Heq%Ascii.eqb_eq.
    by rewrite <- Heq in Hc.
  - intros c Hc. apply not_true_is_false. intros Heq%Ascii.eqb_eq.
    by rewrite <- Heq in Hc.
Qed.

Lemma parse_piece (pre t : string) :
  pre = "" \/ pre = " " ->
  plain_tag t ->
  strip (pre +:+ quoted t) <> "" /\
  strip_char squote (strip_char dquote (strip (pre +:+ quoted t))) = t.
Proof.
  intros Hpre (_ & _ & _ & Hq & Hf & Hl).
  assert (strip (pre +:+ quoted t) = quoted t) as ->.
  { destruct Hpre as [-> | ->]; [apply strip_quoted | apply strip_space_quoted]. }
  split; [done|].
  by rewrite strip_char_dquote_quoted, strip_char_squote_plain.
Qed.

Lemma parse_tags_tag_array (ts : list string) :
  Forall plain_tag ts -> parse_tags (tag_array ts) = ts.
Proof.
  intros Hall. unfold tag_array.
  assert (forall c, c = "["%char \/ c = "]"%char ->
            has_char c (tag_items ts) = false) as Hbr.
  { intros c Hc. apply has_char_tag_items;
      [by destruct Hc as [-> | ->]..|].
    eapply Forall_impl; [exact Hall|]. intros t (? & ? & ? & _).
    by destruct Hc as [-> | ->]. }
  rewrite parse_tags_unfold.
  assert (remove_char "]" (remove_char "[" ("[" +:+ tag_items ts +:+ "]"))
          = tag_items ts) as ->.
  { rewrite !remove_char_append.
    rewrite (remove_char_absent "[" (tag_items ts)) by (apply Hbr; by left).
    rewrite (remove_char_absent "]" (tag_items ts)) by (apply Hbr; by right).
    change (remove_char "]" (remove_char "[" "[")) with "".
    change (remove_char "]" (remove_char "[" "]")) with "".
    by rewrite append_Empty, append_nil_r. }
  destruct ts as [|t ts]; [done|].
  rewrite <- (append_Empty (tag_items (t :: ts))), split_tag_items; [|done|].
  2:{ eapply Forall_impl; [exact Hall|]. by intros u [? _]. }
  apply Forall_cons in Hall as [Ht Hall].
  destruct (parse_piece "" t) as [Hne Heq]; [by left | done|].
  rewrite filter_cons_True by done. cbn [map]. rewrite Heq. f_equal.
  clear Hne Heq Ht Hbr. induction Hall as [|u ts Hu _ IH]; [done|].
  destruct (parse_piece " " u) as [Hne Heq]; [by right | done|].
  cbn [map]. rewrite filter_cons_True by done. cbn [map].
  by rewrite Heq, IH.
Qed.

(** ** Replies without tags, letter case *)

(** X10. A reply in the requested format is read back as sent: when the
    completion, trimmed, is the printed array of plain tags, the classifier
    returns the first three of these tags, unchanged. *)
Theorem well_formed_reply_round_trip
    (env : environ) (review_text content : string) (ts : list string)
    (w : world) :
  credential_configured env = true ->
  ChatCompletion_create env (prompt review_text) = Completed content ->
  strip content = tag_array ts ->
  Forall plain_tag ts ->
  parse_tags (tag_array ts) = ts /\
  (get_ai_tags env review_text w).1 = Return (take 3 ts).
Proof.
  intros Hcred Hcall Hstrip Hall.
  pose proof (parse_tags_tag_array ts Hall) as Hparse.
  split; [done|].
  rewrite get_ai_tags_result_any_world. unfold get_ai_tags_result.
  by rewrite Hcred, Hcall, Hstrip, Hparse, slice_to_nonneg.
Qed.

Lemma all_chars_lstrip (q p : ascii -> bool) (s : string) :
  all_chars q s = true -> all_chars q (lstrip p s) = true.
Proof.
  induction s as [|x s IH]; [done|]. cbn [all_chars lstrip].
  intros [Hx Hs]%andb_true_iff. destruct (p x); [by apply IH|].
  cbn [all_chars]. by rewrite Hx, Hs.
Qed.

Lemma all_chars_rstrip (q p : ascii -> bool) (s : string) :
  all_chars q s = true -> all_chars q (rstrip p s) = true.
Proof.
  induction s as [|x s IH]; [done|]. cbn [all_chars rstrip].
  intros [Hx Hs]%andb_true_iff. specialize (IH Hs).
  destruct (rstrip p s) as [|y r].
  - destruct (p x); [done|]. cbn [all_chars]. by rewrite Hx.
  - cbn [all_chars] in *. by rewrite Hx, IH.
Qed.

Lemma all_chars_remove_char (q : ascii -> bool) (c : ascii) (s : string) :
  all_chars q s = true -> all_chars q (remove_char c s) = true.
Proof.
  induction s as [|x s IH]; [done|]. cbn [all_chars remove_char].
  intros [Hx Hs]%andb_true_iff. destruct (Ascii.eqb x c); [by apply IH|].
  cbn [all_chars]. by rewrite Hx, IH.
Qed.

Lemma all_chars_split (q : ascii -> bool) (c : ascii) (s t : string) :
  all_chars q s = true -> t ∈ split c s -> all_chars q t = true.
Proof.
  revert t. induction s as [|x s IH]; intros t Hs Hin.
  - cbn in Hin. by apply list_elem_of_singleton in Hin as ->.
  - cbn [all_chars] in Hs. apply andb_true_iff in Hs as [Hx Hs].
    cbn [split] in Hin. destruct (Ascii.eqb x c).
    + apply elem_of_cons in Hin as [-> | Hin]; [done | by apply IH].
    + pose proof (split_not_nil c s) as Hne.
      destruct (split c s) as [|h tl]; [done|].
      apply elem_of_cons in Hin as [-> | Hin].
      * cbn [all_chars]. rewrite Hx. apply IH; [done | by left].
      * apply IH; [done | by right].
Qed.

Lemma blank_without_separators (t : string) :
  all_chars blank_reply_char t = true ->
  has_char "," t = false -> has_char "[" t = false ->
  has_char "]" t = false ->
  all_chars is_space t = true.
Proof.
  induction t as [|x t IH]; [done|]. cbn [all_chars has_char].
  intros [Hx Ht]%andb_true_iff [Hc Hc']%orb_false_iff [Hl Hl']%orb_false_iff
         [Hr Hr']%orb_false_iff.
  rewrite IH by done. unfold blank_reply_char in Hx.
  rewrite Hc, Hl, Hr, !orb_false_r in Hx. by rewrite Hx.
Qed.

Lemma lstrip_all (p : ascii -> bool) (s : string) :
  all_chars p s = true -> lstrip p s = "".
Proof.
  induction s as [|x s IH]; [done|]. cbn [all_chars lstrip].
  intros [-> Hs]%andb_true_iff. by apply IH.
Qed.

Lemma filter_none {A} (P : A -> Prop) `{!forall x, Decision (P x)}
    (l : list A) :
  (forall x, x ∈ l -> ~ P x) -> filter P l = [].
Proof.
  induction l as [|x l IH]; [done|]. intros Hall.
  rewrite filter_cons_False by (apply Hall; by left).
  apply IH. intros y Hy. apply Hall. by right.
Qed.

Lemma parse_tags_blank (ai_output : string) :
  all_chars blank_reply_char ai_output = true -> parse_tags ai_output = [].
Proof.
  intros Hblank. rewrite parse_tags_unfold.
  set (body := remove_char "]" (remove_char "[" ai_output)).
  rewrite filter_none; [done|].
  intros t Hin Hne. apply Hne. unfold strip.
  rewrite lstrip_all; [done|].
  assert (forall c, has_char c t = true ->
            has_char c body = true /\ c <> ","%char) as Hsub
    by (intros c; by apply has_char_split).
  apply blank_without_separators.
  - apply (all_chars_split _ "," body); [|done].
    by do 2 apply all_chars_remove_char.
  - apply not_true_is_false. by intros [_ ?]%Hsub.
  - apply not_true_is_false. intros [Hc _]%Hsub. subst body.
    rewrite !has_char_remove_char in Hc. cbn in Hc.
    by rewrite andb_false_r in Hc.
  - apply not_true_is_false. intros [Hc _]%Hsub. subst body.
    rewrite !has_char_remove_char in Hc. cbn in Hc.
    by rewrite andb_false_r in Hc.
Qed.

(** X11. A reply without any tag is not an error: when the completion holds
    only blanks, brackets and commas (the empty array, say), the classifier
    returns the empty list, and the keyword rules, which never return the
    empty list, are not consulted. *)
Theorem blank_reply_gives_no_tags
    (env : environ) (review_text content : string) (w : world) :
  credential_configured env = true ->
  ChatCompletion_create env (prompt review_text) = Completed content ->
  all_chars blank_reply_char content = true ->
  (get_ai_tags env review_text w).1 = Return [] /\
  mock_tags review_text <> [].
Proof.
  intros Hcred Hcall Hblank. split.
  - rewrite get_ai_tags_result_any_world. unfold get_ai_tags_result.
    rewrite Hcred, Hcall, parse_tags_blank; [done|].
    unfold strip. by apply all_chars_rstrip, all_chars_lstrip.
  - by destruct (mock_tags_cases review_text) as [-> | [-> | [-> | ->]]].
Qed.

Lemma lower_char_idemp (c : ascii) : lower_char (lower_char c) = lower_char c.
Proof. by destruct c as [[] [] [] [] [] [] [] []]. Qed.

Lemma lower_idemp (s : string) : lower (lower s) = lower s.
Proof.
  induction s as [|x s IH]; [done|]. cbn [lower].
  by rewrite lower_char_idemp, IH.
Qed.

(** X12. The keyword rules ignore the case of letters: two reviews that differ
    only in case get the same tags, and so does a review and its lowercase
    form. *)
Theorem mock_tags_ignores_case (s s' : string) :
  lower s = lower s' ->
  mock_tags s = mock_tags s' /\ mock_tags (lower s) = mock_tags s.
Proof.
  intros Heq. unfold mock_tags. by rewrite lower_idemp, Heq.
Qed.

(** ** Serving a sequence of calls *)

Lemma handle_texts (c : call) (w : world) :
  map text (reviews_db (handle c w).2) =
  map text (reviews_db w) ++ option_list (accepted_text c).
Proof.
  destruct c as [env t0 t1 [payload|]|]; cbn [handle accepted_text].
  3:{ by rewrite get_summary_world, app_nil_r. }
  2:{ by rewrite analyze_review_not_json, app_nil_r. }
  destruct (well_formed_dec payload) as [Hwf | Hbad].
  - destruct Hwf as (m & -> & [Hm | [s Hm]]).
    + rewrite analyze_review_missing by (by left). rewrite Hm.
      by rewrite app_nil_r.
    + rewrite Hm. destruct (decide (strip s = "")) as [Hs|Hs].
      * rewrite analyze_review_missing by (right; by exists s).
        rewrite Hs. by rewrite app_nil_r.
      * rewrite (analyze_review_ok env t0 t1 m s) by done.
        apply truthy_true in Hs. rewrite Hs. cbn [snd reviews_db].
        by rewrite map_app.
  - destruct Hbad as [Hnd | (m & v & -> & Hm & Hv)].
    + rewrite analyze_review_not_dict by done.
      destruct payload; try by rewrite app_nil_r. by destruct (Hnd m).
    + rewrite (analyze_review_not_str env t0 t1 m v) by done. rewrite Hm.
      destruct v; try by rewrite app_nil_r. by destruct (Hv s).
Qed.

(** X13. Serving a sequence of calls stores exactly the accepted review texts,
    in the order of arrival; summaries, rejected and malformed requests
    leave no record. Started from the empty store, a later summary reports
    as [total_reviews] the number of accepted reviews. *)
Theorem serve_stores_accepted_texts (cs : list call) (w : world) :
  map text (reviews_db (serve cs w)) =
    map text (reviews_db w) ++ omap accepted_text cs /\
  (w = initial_world ->
   omap accepted_text cs <> [] ->
   exists m : gmap string value,
     get_summary (serve cs w) = (Return m, serve cs w) /\
     m !! "total_reviews"
       = Some (VInt (Z.of_nat (length (omap accepted_text cs))))).
Proof.
  assert (forall w0, map text (reviews_db (serve cs w0)) =
            map text (reviews_db w0) ++ omap accepted_text cs) as Htexts.
  { induction cs as [|c cs IH]; intros w0; cbn [serve omap].
    - by rewrite app_nil_r.
    - rewrite IH, handle_texts, <- app_assoc. f_equal.
      unfold omap. cbn [list_omap]. by destruct (accepted_text c). }
  split; [apply Htexts|].
  intros -> Hne. specialize (Htexts initial_world). cbn in Htexts.
  eexists. split.
  - apply get_summary_nonempty. intros Hdb. rewrite Hdb in Htexts.
    by destruct (omap accepted_text cs).
  - rewrite lookup_insert_eq. by rewrite <- Htexts, length_map.
Qed.

(** ** Worked instances of the further properties *)

(** Six tags, four of them distinct, k = 4: all are ranked and the counts
    add up to six. *)
Lemma top_k_tags_all_witness :
  (Z.of_nat (length (remove_dups ["b"; "a"; "c"; "a"; "c"; "d"])) <= 4)%Z /\
  top_k_tags ["b"; "a"; "c"; "a"; "c"; "d"] 4
    = [("a", 2%Z); ("c", 2%Z); ("b", 1%Z); ("d", 1%Z)] /\
  sum_counts (top_k_tags ["b"; "a"; "c"; "a"; "c"; "d"] 4) = 6%Z.
Proof.
  assert (Z.of_nat (length (remove_dups ["b"; "a"; "c"; "a"; "c"; "d"])) <= 4)%Z
    as Hk by (vm_compute; discriminate).
  split; [exact Hk|]. split; [reflexivity|].
  destruct (top_k_tags_all ["b"; "a"; "c"; "a"; "c"; "d"] 4 Hk)
    as (_ & _ & Hsum).
  exact Hsum.
Defined.

(** After one accepted review the store and the classifier calls agree. *)
Lemma store_matches_classifier_calls_witness :
  let w :=
    (analyze_review no_credential 10 (21 # 2) (request " arrived late ")
       initial_world).2 in
  reachable any_clock w /\
  map text (reviews_db w) = ["arrived late"] /\
  classifier_calls (trace w) = ["arrived late"].
Proof.
  intros w.
  assert (reachable any_clock w) as Hreach
    by (apply reach_analyze; [constructor | exact I]).
  split; [exact Hreach|].
  destruct (store_matches_classifier_calls w Hreach) as [Heq _].
  split; [reflexivity|]. rewrite <- Heq. reflexivity.
Defined.

(** Three stored times, none of them negative. *)
Lemma summary_average_nonneg_witness :
  reviews_db three_reviews <> [] /\
  exists (m : gmap string value) (avg : Q),
    get_summary three_reviews = (Return m, three_reviews) /\
    m !! "avg_processing_time" = Some (VFloat avg) /\
    (0 <= avg)%Q.
Proof.
  split; [discriminate|].
  apply (summary_average_nonneg three_reviews); [discriminate|].
  repeat constructor; by vm_compute.
Defined.

(** The top tags of three stored reviews. *)
Lemma summary_top_tags_witness :
  reviews_db three_reviews <> [] /\
  exists (m : gmap string value) (top : list (string * Z)),
    get_summary three_reviews = (Return m, three_reviews) /\
    m !! "top_tags" = Some (VList (map tag_count_value top)) /\
    length top <= 3.
Proof.
  split; [discriminate|].
  destruct (summary_top_tags_sound three_reviews)
    as (m & top & Hrun & Htop & Hlen & _); [discriminate|].
  exists m, top. split; [exact Hrun|]. split; [exact Htop | exact Hlen].
Defined.

(** Four tags sent, three returned. *)
Lemma well_formed_reply_witness :
  let ts := ["late"; "box damaged"; "refund"; "extra"] in
  strip (tag_array ts +:+ " ") = tag_array ts /\
  (get_ai_tags (replying (tag_array ts +:+ " ")) "fine" initial_world).1
  = Return ["late"; "box damaged"; "refund"].
Proof.
  intros ts. split; [reflexivity|].
  destruct (well_formed_reply_round_trip (replying (tag_array ts +:+ " "))
              "fine" (tag_array ts +:+ " ") ts initial_world)
    as [_ Hrun]; [reflexivity | reflexivity | reflexivity | |exact Hrun].
  repeat constructor; try discriminate.
Defined.

(** The empty array. *)
Lemma blank_reply_witness :
  all_chars blank_reply_char "[]" = true /\
  (get_ai_tags (replying "[]") "late and broken" initial_world).1 = Return [].
Proof.
  split; [reflexivity|].
  destruct (blank_reply_gives_no_tags (replying "[]") "late and broken" "[]"
              initial_world) as [Hrun _]; [reflexivity..|exact Hrun].
Defined.

(** Capitals make no difference. *)
Lemma mock_tags_ignores_case_witness :
  lower "Arrived LATE" = lower "arrived late" /\
  mock_tags "Arrived LATE" = mock_tags "arrived late".
Proof.
  split; [reflexivity|].
  destruct (mock_tags_ignores_case "Arrived LATE" "arrived late")
    as [Heq _]; [reflexivity | exact Heq].
Defined.

(** Six calls, two of them accepted. *)
Lemma serve_witness :
  map text (reviews_db (serve sample_calls initial_world))
    = ["late again"; "Broken box"] /\
  exists m : gmap string value,
    get_summary (serve sample_calls initial_world)
      = (Return m, serve sample_calls initial_world) /\
    m !! "total_reviews" = Some (VInt 2).
Proof.
  destruct (serve_stores_accepted_texts sample_calls initial_world)
    as [Htexts Hsum].
  split; [rewrite Htexts; reflexivity|].
  destruct Hsum as (m & Hrun & Htotal); [reflexivity | discriminate|].
  exists m. split; [exact Hrun | exact Htotal].
Defined.
